(** * Grocery-Share-API: the debt ledger, the split allocator and settlement

    A shallow embedding of [api/utils.py] ([update_debts],
    [create_receipt_item_and_splits], [validate_payment_amount]) and of
    [PayDebtView.post] from [api/views.py], with the properties of the
    specification stated over it.

    Modelling decisions.
    - [Debt] rows are unique on (group, debtor, creditor)
      ([unique_together] in [api/models.py]); the table is a finite map
      from that triple to the row's [amount].  The surrogate [id] and
      [last_updated] columns carry no behaviour and are left out.
    - [Debt.amount] and [ReceiptItemSplit.amount] are
      [DecimalField(max_digits=10, decimal_places=2)].  A value read back
      from such a column has exponent -2, and [+], [-], unary [-] and the
      comparisons of Python's [Decimal] are exact on them; a stored
      amount is modelled by its number of cents, an integer.
    - Primary keys are UUIDs that are only ever compared for equality;
      they are modelled as [positive]. *)

From Stdlib Require Import ZArith Lia Bool List Ascii String Permutation.
From stdpp Require Import gmap strings list fin_maps sorting.

Open Scope Z_scope.

(** ** Data model ([api/models.py]) *)

Abbreviation GroupId := positive.
Abbreviation MemberId := positive.

(** A [ReceiptItemSplit] row as [update_debts] reads it: [group_member]
    owes [amount] (in cents) to [paid_by]. *)
Record ReceiptItemSplit := mkSplit {
  group_member : MemberId;
  paid_by : MemberId;
  amount : Z
}.
Arguments mkSplit (group_member paid_by)%_positive amount%_Z.

(** The [Debt] table: (group, debtor, creditor) ↦ amount in cents. *)
Abbreviation DebtKey := (positive * positive * positive)%type.
Abbreviation Ledger := (gmap (positive * positive * positive) Z).

(** ** [update_debts] ([api/utils.py], lines 107-151) *)

(** One iteration of the [for split in splits] loop. *)
Definition update_debts_step (group : GroupId) (db : Ledger)
    (split : ReceiptItemSplit) : Ledger :=
  let debtor := group_member split in
  let creditor := paid_by split in
  let amount := amount split in
  if decide (debtor = creditor) then db          (* continue *)
  else
    match db !! (group, debtor, creditor) with
    | Some debt_amount =>
        let debt_amount := debt_amount + amount in
        if debt_amount =? 0
        then delete (group, debtor, creditor) db
        else <[(group, debtor, creditor) := debt_amount]> db
    | None =>
        match db !! (group, creditor, debtor) with
        | Some reverse_amount =>
            let reverse_amount := reverse_amount - amount in
            if reverse_amount =? 0
            then delete (group, creditor, debtor) db
            else if reverse_amount <? 0
            then delete (group, creditor, debtor)
                   (<[(group, debtor, creditor) := - reverse_amount]> db)
            else <[(group, creditor, debtor) := reverse_amount]> db
        | None => <[(group, debtor, creditor) := amount]> db
        end
    end.

Definition update_debts (splits : list ReceiptItemSplit) (group : GroupId)
    (db : Ledger) : Ledger :=
  foldl (update_debts_step group) db splits.
Arguments update_debts splits group%_positive db.

(** ** Vocabulary of the specification *)

(** The ledger invariant of the data model: every edge is strictly
    positive and no pair of members is linked in both directions. *)
Definition ledger_inv (db : Ledger) : Prop :=
  (∀ k a, db !! k = Some a → 0 < a) ∧
  (∀ g a b, is_Some (db !! (g, a, b)) → is_Some (db !! (g, b, a)) → False).

(** What [debtor] owes [creditor] according to the table (0 without a row). *)
Definition owed (db : Ledger) (g : GroupId) (debtor creditor : MemberId) : Z :=
  default 0 (db !! (g, debtor, creditor)).

(** Signed net balance of the ordered pair (a, b). *)
Definition net (db : Ledger) (g : GroupId) (a b : MemberId) : Z :=
  owed db g a b - owed db g b a.

(** Signed contribution of one split to the ordered pair (a, b). *)
Definition split_signed (a b : MemberId) (s : ReceiptItemSplit) : Z :=
  (if decide (group_member s = a ∧ paid_by s = b) then amount s else 0)
  - (if decide (group_member s = b ∧ paid_by s = a) then amount s else 0).

Definition folded_signed (splits : list ReceiptItemSplit) (a b : MemberId) : Z :=
  foldr (λ s acc, split_signed a b s + acc) 0 splits.

Definition sumZ (l : list Z) : Z := foldr Z.add 0 l.

(** Total a member owes / is owed inside group [g]: the sums over the rows
    where the member is the debtor, respectively the creditor. *)
Definition row_owed_by (g : GroupId) (m : MemberId)
    (row : (positive * positive * positive) * Z) : Z :=
  let '((g', debtor, _), a) := row in
  if decide (g' = g ∧ debtor = m) then a else 0.

Definition row_owed_to (g : GroupId) (m : MemberId)
    (row : (positive * positive * positive) * Z) : Z :=
  let '((g', _, creditor), a) := row in
  if decide (g' = g ∧ creditor = m) then a else 0.

Definition total_owed_by (db : Ledger) (g : GroupId) (m : MemberId) : Z :=
  sumZ (map (row_owed_by g m) (map_to_list db)).

Definition total_owed_to (db : Ledger) (g : GroupId) (m : MemberId) : Z :=
  sumZ (map (row_owed_to g m) (map_to_list db)).

(** ** Python's [decimal] module, as far as the code uses it

    The default context: 28 significant digits, [ROUND_HALF_EVEN],
    [InvalidOperation], [DivisionByZero] and [Overflow] trapped (they raise).
    A finite [Decimal] is a signed coefficient and an exponent, its value
    being [coefficient * 10 ^ exponent]; the sign of a zero is not kept, no
    operation below observes it. *)

Inductive exn :=
| InvalidOperation
| DivisionByZero
| Overflow
| TypeError
| ValueError (msg : string)
| Http404.

(** A Python computation either returns or raises. *)
Inductive outcome (A : Type) :=
| Returned (a : A)
| Raised (e : exn).
Arguments Returned {A} a.
Arguments Raised {A} e.

#[global] Instance outcome_ret : MRet outcome := λ A a, Returned a.
#[global] Instance outcome_bind : MBind outcome := λ A B f m,
  match m with
  | Returned a => f a
  | Raised e => Raised e
  end.
#[global] Instance outcome_fmap : FMap outcome := λ A B f m,
  match m with
  | Returned a => Returned (f a)
  | Raised e => Raised e
  end.

(** [try: body except (E1, E2): handler] *)
Definition try_except {A} (body : outcome A) (caught : exn → bool)
    (handler : outcome A) : outcome A :=
  match body with
  | Returned a => Returned a
  | Raised e => if caught e then handler else Raised e
  end.

Inductive Decimal :=
| DFin (coefficient : Z) (exponent : Z)
| DInf (negative : bool)
| DNaN (signaling : bool).

Inductive rounding := ROUND_HALF_UP | ROUND_HALF_EVEN.

Definition prec : Z := 28.
Definition Emax : Z := 999999.
Definition Emin : Z := -999999.
Definition Etiny : Z := Emin - prec + 1.
Definition Etop : Z := Emax - prec + 1.
Definition default_rounding : rounding := ROUND_HALF_EVEN.

(** [len(str(n))] for [n >= 0]. *)
Fixpoint ndigits_fuel (fuel : nat) (n : Z) : Z :=
  match fuel with
  | O => 1
  | S fuel' => if n <? 10 then 1 else 1 + ndigits_fuel fuel' (n / 10)
  end.

Definition ndigits (n : Z) : Z := ndigits_fuel (Z.to_nat (Z.log2 n)) n.

(** Rounding the magnitude [m] to a whole number of units of size [p]. *)
Definition round_magnitude (mode : rounding) (m p : Z) : Z :=
  let q := m / p in
  let r := m mod p in
  match mode with
  | ROUND_HALF_UP => if 2 * r >=? p then q + 1 else q
  | ROUND_HALF_EVEN =>
      if (2 * r >? p) || ((2 * r =? p) && Z.odd q) then q + 1 else q
  end.

(** [Decimal._rescale]: the coefficient at exponent [exp], padded with zeros
    or rounded. *)
Definition rescale (mode : rounding) (c e exp : Z) : Z :=
  if c =? 0 then 0
  else if exp <=? e then c * 10 ^ (e - exp)
  else Z.sgn c * round_magnitude mode (Z.abs c) (10 ^ (exp - e)).

(** [self.quantize(exp, rounding)] *)
Definition quantize (self exp : Decimal) (mode : rounding) : outcome Decimal :=
  match self, exp with
  | DNaN true, _ | _, DNaN true => Raised InvalidOperation
  | DNaN false, _ | _, DNaN false => Returned (DNaN false)
  | DInf neg, DInf _ => Returned (DInf neg)
  | DInf _, DFin _ _ | DFin _ _, DInf _ => Raised InvalidOperation
  | DFin c e, DFin _ exp =>
      if negb ((Etiny <=? exp) && (exp <=? Emax)) then Raised InvalidOperation
      else if c =? 0 then Returned (DFin 0 exp)
      else
        let adjusted := ndigits (Z.abs c) + e - 1 in
        if adjusted >? Emax then Raised InvalidOperation
        else if adjusted - exp + 1 >? prec then Raised InvalidOperation
        else
          let c' := rescale mode c e exp in
          if ndigits (Z.abs c') + exp - 1 >? Emax then Raised InvalidOperation
          else if ndigits (Z.abs c') >? prec then Raised InvalidOperation
          else Returned (DFin c' exp)
  end.

(** [Decimal._fix]: round a finite result to the context precision. *)
Definition fix_ (c e : Z) : outcome Decimal :=
  if c =? 0 then Returned (DFin 0 (Z.min (Z.max e Etiny) Emax))
  else
    let exp_min := ndigits (Z.abs c) + e - prec in
    if exp_min >? Etop then Raised Overflow
    else
      let exp_min := Z.max exp_min Etiny in
      if e <? exp_min then
        let coeff := round_magnitude default_rounding (Z.abs c) (10 ^ (exp_min - e)) in
        let '(coeff, exp_min) :=
          if ndigits coeff >? prec then (coeff / 10, exp_min + 1)
          else (coeff, exp_min) in
        if exp_min >? Etop then Raised Overflow
        else Returned (DFin (Z.sgn c * coeff) exp_min)
      else Returned (DFin c e).

(** The loop [while exp < ideal_exp and coeff % 10 == 0] of an exact division. *)
Fixpoint strip_zeros (fuel : nat) (coeff exp ideal_exp : Z) : Z * Z :=
  match fuel with
  | O => (coeff, exp)
  | S fuel' =>
      if (exp <? ideal_exp) && (coeff mod 10 =? 0)
      then strip_zeros fuel' (coeff / 10) (exp + 1) ideal_exp
      else (coeff, exp)
  end.

(** [self / other] for an [int] [other] ([Decimal.__truediv__]). *)
Definition truediv (self : Decimal) (other : Z) : outcome Decimal :=
  match self with
  | DNaN true => Raised InvalidOperation
  | DNaN false => Returned (DNaN false)
  | DInf neg => Returned (DInf (xorb neg (other <? 0)))
  | DFin c e =>
      if other =? 0 then
        Raised (if c =? 0 then InvalidOperation else DivisionByZero)
      else if c =? 0 then fix_ 0 e
      else
        let shift := ndigits (Z.abs other) - ndigits (Z.abs c) + prec + 1 in
        let exp := e - shift in
        let '(coeff, remainder) :=
          if 0 <=? shift
          then Z.div_eucl (Z.abs c * 10 ^ shift) (Z.abs other)
          else Z.div_eucl (Z.abs c) (Z.abs other * 10 ^ (- shift)) in
        let '(coeff, exp) :=
          if remainder =? 0
          then strip_zeros (Z.to_nat (e - exp)) coeff exp e
          else (if coeff mod 5 =? 0 then coeff + 1 else coeff, exp) in
        fix_ (Z.sgn c * Z.sgn other * coeff) exp
  end.

(** Ordering comparisons ([<], [<=], [>], [>=]); a NaN operand raises. *)
Definition dec_compare (a b : Decimal) : outcome comparison :=
  match a, b with
  | DNaN _, _ | _, DNaN _ => Raised InvalidOperation
  | DInf na, DInf nb => Returned (if na then (if nb then Eq else Lt)
                                  else (if nb then Gt else Eq))
  | DInf na, DFin _ _ => Returned (if na then Lt else Gt)
  | DFin _ _, DInf nb => Returned (if nb then Gt else Lt)
  | DFin c1 e1, DFin c2 e2 =>
      let m := Z.min e1 e2 in
      Returned (Z.compare (c1 * 10 ^ (e1 - m)) (c2 * 10 ^ (e2 - m)))
  end.

Definition dec_le (a b : Decimal) : outcome bool :=
  c ← dec_compare a b;
  mret (match c with Gt => false | _ => true end).

Definition dec_gt (a b : Decimal) : outcome bool :=
  c ← dec_compare a b;
  mret (match c with Gt => true | _ => false end).

(** *** [Decimal(text)]: the numeric-string syntax

    The text is stripped, underscores are removed, and what is left must be
    a sign, digits with an optional point and an optional exponent, or one of
    [Inf], [Infinity], [NaN], [sNaN] in any letter case.  Only ASCII digits
    and ASCII white space are modelled. *)

Definition is_digit (c : ascii) : bool :=
  let n := nat_of_ascii c in (48 <=? n)%nat && (n <=? 57)%nat.

Definition digit_value (c : ascii) : Z := Z.of_nat (nat_of_ascii c) - 48.

Definition lower (c : ascii) : ascii :=
  let n := nat_of_ascii c in
  if (65 <=? n)%nat && (n <=? 90)%nat then ascii_of_nat (n + 32) else c.

(** ASCII characters removed by [str.strip()]. *)
Definition is_space (c : ascii) : bool :=
  let n := nat_of_ascii c in
  ((9 <=? n)%nat && (n <=? 13)%nat) || ((28 <=? n)%nat && (n <=? 32)%nat).

Fixpoint lstrip (l : list ascii) : list ascii :=
  match l with
  | c :: l' => if is_space c then lstrip l' else l
  | [] => []
  end.

Definition strip (l : list ascii) : list ascii := rev (lstrip (rev (lstrip l))).

Definition remove_underscores (l : list ascii) : list ascii :=
  List.filter (λ c, negb (Ascii.eqb c "_")) l.

Fixpoint span_digits (l : list ascii) : list ascii * list ascii :=
  match l with
  | c :: l' =>
      if is_digit c then let '(ds, rest) := span_digits l' in (c :: ds, rest)
      else ([], l)
  | [] => ([], [])
  end.

Definition int_of_digits (ds : list ascii) : Z :=
  fold_left (λ acc c, 10 * acc + digit_value c) ds 0.

Definition parse_sign (l : list ascii) : bool * list ascii :=
  match l with
  | "-"%char :: l' => (true, l')
  | "+"%char :: l' => (false, l')
  | _ => (false, l)
  end.

(** [(E(?P<exp>[-+]?\d+))?] followed by the end of the text. *)
Definition parse_exponent (l : list ascii) : option Z :=
  match l with
  | [] => Some 0
  | c :: l' =>
      if Ascii.eqb (lower c) "e" then
        let '(neg, l'') := parse_sign l' in
        match span_digits l'' with
        | (d :: ds, []) =>
            Some ((if neg then -1 else 1) * int_of_digits (d :: ds))
        | _ => None
        end
      else None
  end.

Definition parse_Decimal (text : list ascii) : option Decimal :=
  let '(neg, body) := parse_sign (remove_underscores (strip text)) in
  let lowered := List.map lower body in
  let '(intpart, rest) := span_digits body in
  let '(fracpart, rest) :=
    match rest with
    | "."%char :: rest' => span_digits rest'
    | _ => ([], rest)
    end in
  if negb (Nat.eqb (length intpart + length fracpart) 0) then
    match parse_exponent rest with
    | Some exp =>
        Some (DFin ((if neg then -1 else 1) * int_of_digits (intpart ++ fracpart))
                   (exp - Z.of_nat (length fracpart)))
    | None => None
    end
  else
    match lowered with
    | ["i"; "n"; "f"]%char => Some (DInf neg)
    | ["i"; "n"; "f"; "i"; "n"; "i"; "t"; "y"]%char => Some (DInf neg)
    | "n"%char :: "a"%char :: "n"%char :: diag =>
        if forallb is_digit diag then Some (DNaN false) else None
    | "s"%char :: "n"%char :: "a"%char :: "n"%char :: diag =>
        if forallb is_digit diag then Some (DNaN true) else None
    | _ => None
    end.

(** [Decimal(text)]: a malformed text signals [ConversionSyntax], a kind of
    [InvalidOperation], which the default context raises. *)
Definition Decimal_of_str (text : string) : outcome Decimal :=
  match parse_Decimal (list_ascii_of_string text) with
  | Some d => Returned d
  | None => Raised InvalidOperation
  end.

(** ** [create_receipt_item_and_splits] ([api/utils.py], lines 57-103)

    The [Category] and [ReceiptItem] rows the function also creates have no
    bearing on the splits and are left out; [actual_price] is the value
    [Decimal(str(item_data.get('actual_price', ...)))] already holds.
    [group_members] is the queryset [GroupMember.objects.filter(group=group)]
    of the caller, so [get_object_or_404(GroupMember, id=..., group=group)]
    succeeds exactly on its elements. *)

Inductive SplitMethod := EVENLY | BY_USER | other_method.

Record ItemData := mkItem {
  actual_price : Decimal;
  split_method : SplitMethod;
  paid_by_id : option MemberId;
  split_user_id : option MemberId
}.

(** The keyword arguments of one [ReceiptItemSplit.objects.create(...)]. *)
Record SplitFields := mkFields {
  new_group_member : MemberId;
  new_amount : Decimal;
  new_paid_by : MemberId
}.

Definition get_member_or_404 (group_members : list MemberId)
    (id : option MemberId) : outcome MemberId :=
  match id with
  | Some id => if decide (id ∈ group_members) then Returned id else Raised Http404
  | None => Raised Http404
  end.

Definition create_receipt_item_and_splits (item_data : ItemData)
    (group_members : list MemberId) : outcome (list SplitFields) :=
  paid_by ← get_member_or_404 group_members (paid_by_id item_data);
  match split_method item_data with
  | EVENLY =>
      let num_members := Z.of_nat (length group_members) in
      if num_members =? 0
      then Raised (ValueError "No members in the group to split the item.")
      else
        split_amount ← truediv (actual_price item_data) num_members;
        mapM (M := outcome)
             (λ member : MemberId,
                amount ← quantize split_amount (DFin 1 (-2)) default_rounding;
                mret (mkFields member amount paid_by))
             group_members
  | BY_USER =>
      split_user ← get_member_or_404 group_members (split_user_id item_data);
      mret [mkFields split_user (actual_price item_data) paid_by]
  | other_method => mret []
  end.

(** The row a created split is read back as: its amount in cents.  Defined
    when the amount is a whole number of cents; what a column of scale 2 makes
    of any other amount is up to the database adapter. *)
Definition cents (d : Decimal) : option Z :=
  match d with
  | DFin c e =>
      if -2 <=? e then Some (c * 10 ^ (e + 2))
      else if c mod 10 ^ (- 2 - e) =? 0 then Some (c / 10 ^ (- 2 - e))
      else None
  | _ => None
  end.

Definition saved_split (f : SplitFields) : option ReceiptItemSplit :=
  a ← cents (new_amount f);
  Some (mkSplit (new_group_member f) (new_paid_by f) a).

(** ** [validate_payment_amount] ([api/utils.py], lines 271-289) *)

(** The JSON value of [request.data.get('amount')]; a JSON number is carried
    by the text [str] gives for it. *)
Inductive PyValue :=
| PyNone
| PyBool (b : bool)
| PyStr (s : string)
| PyNumber (repr : string).

Definition py_str (v : PyValue) : string :=
  match v with
  | PyNone => "None"
  | PyBool true => "True"
  | PyBool false => "False"
  | PyStr s => s
  | PyNumber repr => repr
  end.

(** The returned pair: [(True, payment_amount)] or [(False, message)]. *)
Inductive validation :=
| ok_amount (payment_amount : Decimal)
| not_ok (message : string).

Definition validate_payment_amount (payment_amount : PyValue)
    (debt_amount : Decimal) : outcome validation :=
  try_except
    (parsed ← Decimal_of_str (py_str payment_amount);
     payment_amount ← quantize parsed (DFin 0 (-2)) ROUND_HALF_UP;
     (* debt_amount = Decimal(str(debt_amount)) gives back the same number *)
     non_positive ← dec_le payment_amount (DFin 0 0);
     if (non_positive : bool)
     then Returned (not_ok "Payment amount must be greater than 0.")
     else
       exceeds ← dec_gt payment_amount debt_amount;
       if (exceeds : bool)
       then Returned (not_ok "Payment amount cannot exceed the debt amount.")
       else Returned (ok_amount payment_amount))
    (λ e, match e with TypeError | ValueError _ => true | _ => false end)
    (Returned (not_ok "Invalid payment amount.")).

(** ** [PayDebtView.post] ([api/views.py], lines 943-983)

    [groups] are the existing groups, [user_member] the requester's
    [GroupMember] in the group if there is one, and the debt is addressed by
    its unique (group, debtor, creditor) triple.  The call to
    [validate_payment_amount] is outside the view's [try], so what it raises
    leaves the view.  An accepted payment always has exponent -2
    ([validate_payment_amount_ok] below), so [cents] never fails on it: the
    [None] branch is there for totality only. *)

Inductive Response :=
| HTTP_404
| HTTP_403 (error : string)
| HTTP_400 (error : string)
| HTTP_200_message (message : string)
| HTTP_200_debt (debtor creditor : MemberId) (amount : Z).

Definition PayDebtView_post (groups : list GroupId) (db : Ledger)
    (user_member : option MemberId) (amount : PyValue)
    (group_id : GroupId) (debt_id : positive * positive * positive)
    : outcome (Response * Ledger) :=
  if negb (bool_decide (group_id ∈ groups)) then Returned (HTTP_404, db)
  else
    match user_member with
    | None => Returned (HTTP_403 "You are not a member of this group.", db)
    | Some user_member =>
        let '(debt_group, debtor, creditor) := debt_id in
        match (if decide (debt_group = group_id) then db !! debt_id else None) with
        | None => Returned (HTTP_404, db)
        | Some debt_amount =>
            if negb (bool_decide (user_member = debtor ∨ user_member = creditor))
            then Returned (HTTP_403 "You are not involved in this debt.", db)
            else
              result ← validate_payment_amount amount (DFin debt_amount (-2));
              match result with
              | not_ok error => Returned (HTTP_400 error, db)
              | ok_amount payment_amount =>
                  match cents payment_amount with
                  | None => Raised TypeError
                  | Some payment =>
                      let debt_amount := debt_amount - payment in
                      if debt_amount <=? 0
                      then Returned (HTTP_200_message "Debt fully paid and deleted.",
                                 delete debt_id db)
                      else Returned (HTTP_200_debt debtor creditor debt_amount,
                                 <[debt_id := debt_amount]> db)
                  end
              end
        end
    end.

(** A 200 answer. *)
Definition is_success (r : Response) : bool :=
  match r with
  | HTTP_200_message _ | HTTP_200_debt _ _ _ => true
  | _ => false
  end.

(** ** Vocabulary for the allocator *)

(** [actual_price / n] rounded to a whole number of cents, ties to the even
    cent: what one rounding of the exact quotient gives. *)
Abbreviation rhe := (round_magnitude ROUND_HALF_EVEN).



(** ** [sort_debts] ([api/utils.py], lines 292-308)

    A [Debt] object of the queryset handed to [sort_debts].  [list.sort] is a
    stable comparison sort that only uses [<] on the keys: its result is the
    one ordering of the input that is sorted by key and keeps equal keys in
    input order, computed here by insertion from the right. *)

Record Debt := mkDebt {
  debt_debtor : MemberId;
  debt_creditor : MemberId;
  debt_amount : Z
}.
Arguments mkDebt (debt_debtor debt_creditor)%_positive debt_amount%_Z.

(** [<] on the key tuples, lexicographically. *)
Definition key_lt (k1 k2 : Z * Z) : bool :=
  (k1.1 <? k2.1) || ((k1.1 =? k2.1) && (k1.2 <? k2.2)).

Fixpoint insert_by {A} (lt : A → A → bool) (x : A) (l : list A) : list A :=
  match l with
  | [] => [x]
  | y :: l' => if lt y x then y :: insert_by lt x l' else x :: y :: l'
  end.

Definition stable_sort {A} (lt : A → A → bool) (l : list A) : list A :=
  foldr (insert_by lt) [] l.

(** [debt.debtor == user_member or debt.creditor == user_member] *)
Definition related_to (user_member : MemberId) (debt : Debt) : bool :=
  bool_decide (debt_debtor debt = user_member)
  || bool_decide (debt_creditor debt = user_member).

(** The key [(-(related), -debt.amount)]; [-True] is [-1], [-False] is [0]. *)
Definition sort_debts_key (user_member : MemberId) (debt : Debt) : Z * Z :=
  (- (if related_to user_member debt then 1 else 0), - debt_amount debt).

Definition sort_debts (debts : list Debt) (user_member : MemberId) : list Debt :=
  stable_sort (λ d1 d2, key_lt (sort_debts_key user_member d1)
                               (sort_debts_key user_member d2))
              debts.

(** What the sorted list promises about a debt [d1] listed before [d2]. *)
Definition listed_before (user_member : MemberId) (d1 d2 : Debt) : Prop :=
  (related_to user_member d2 = true → related_to user_member d1 = true)
  ∧ (related_to user_member d1 = related_to user_member d2 →
     debt_amount d2 ≤ debt_amount d1).

(** ** [int(...)] on a query or path argument

    The argument is either already an [int] (the defaults
    [datetime.now().year] and the like) or a text.  [int(text)] strips the
    white space of C ([" \t\n\v\f\r"]) and accepts an optional sign followed
    by decimal digits, where single underscores may separate digits; a text
    of more than 4300 digits is refused ([sys.get_int_max_str_digits()]).
    Only ASCII is modelled, and both refusals are the [ValueError] of an
    invalid literal. *)

Inductive IntArg :=
| arg_int (n : Z)
| arg_str (s : string).

Definition is_c_space (c : ascii) : bool :=
  let n := nat_of_ascii c in
  ((9 <=? n)%nat && (n <=? 13)%nat) || (n =? 32)%nat.

Fixpoint int_lstrip (l : list ascii) : list ascii :=
  match l with
  | c :: l' => if is_c_space c then int_lstrip l' else l
  | [] => []
  end.

Definition int_strip (l : list ascii) : list ascii :=
  rev (int_lstrip (rev (int_lstrip l))).

Definition max_str_digits : nat := 4300.

Fixpoint parse_int_digits (l : list ascii) (acc : Z) (after_digit : bool)
    : option Z :=
  match l with
  | [] => if after_digit then Some acc else None
  | c :: l' =>
      if is_digit c then parse_int_digits l' (10 * acc + digit_value c) true
      else if Ascii.eqb c "_" && after_digit then parse_int_digits l' acc false
      else None
  end.

Definition parse_int (text : list ascii) : option Z :=
  let '(neg, body) := parse_sign (int_strip text) in
  match parse_int_digits body 0 false with
  | Some n =>
      if (max_str_digits <? length (List.filter is_digit body))%nat then None
      else Some (if neg then - n else n)
  | None => None
  end.

Definition py_int (x : IntArg) : outcome Z :=
  match x with
  | arg_int n => Returned n
  | arg_str s =>
      match parse_int (list_ascii_of_string s) with
      | Some n => Returned n
      | None => Raised (ValueError "invalid literal for int() with base 10")
      end
  end.

(** ** Dates

    A [datetime.date] is modelled by its proleptic Gregorian ordinal
    ([date.toordinal()]): dates are compared, tested for equality and moved
    by a [timedelta] of whole days only, and the ordinal is an order
    isomorphism from the dates 0001-01-01 .. 9999-12-31 onto
    1 .. 3652059. *)

Definition MINYEAR : Z := 1.
Definition MAXYEAR : Z := 9999.
Definition max_ordinal : Z := 3652059.

Definition is_leap (year : Z) : bool :=
  (year mod 4 =? 0) && (negb (year mod 100 =? 0) || (year mod 400 =? 0)).

(** [calendar.monthrange(year, month)[1]] for a month in 1..12. *)
Definition days_in_month (year month : Z) : Z :=
  if month =? 2 then (if is_leap year then 29 else 28)
  else if (month =? 4) || (month =? 6) || (month =? 9) || (month =? 11) then 30
  else 31.

Definition days_before_year (year : Z) : Z :=
  let y := year - 1 in y * 365 + y / 4 - y / 100 + y / 400.

Fixpoint days_before_month_aux (year : Z) (months : nat) : Z :=
  match months with
  | O => 0
  | S k => days_before_month_aux year k + days_in_month year (Z.of_nat (S k))
  end.

(** Days of [year] before the first day of [month]. *)
Definition days_before_month (year month : Z) : Z :=
  days_before_month_aux year (Z.to_nat (month - 1)).

Definition ymd2ord (year month day : Z) : Z :=
  days_before_year year + days_before_month year month + day.

(** [datetime(year, month, day).date()] *)
Definition make_date (year month day : Z) : outcome Z :=
  if negb ((MINYEAR <=? year) && (year <=? MAXYEAR))
  then Raised (ValueError "year is out of range")
  else if negb ((1 <=? month) && (month <=? 12))
  then Raised (ValueError "month must be in 1..12")
  else if negb ((1 <=? day) && (day <=? days_in_month year month))
  then Raised (ValueError "day is out of range for month")
  else Returned (ymd2ord year month day).

(** The result of date arithmetic, which raises [OverflowError] outside
    0001-01-01 .. 9999-12-31. *)
Inductive or_overflow (A : Type) :=
| in_range (a : A)
| OverflowError.
Arguments in_range {A} a.
Arguments OverflowError {A}.

(** [date + timedelta(days=days)] *)
Definition date_add (d days : Z) : or_overflow Z :=
  if (1 <=? d + days) && (d + days <=? max_ordinal)
  then in_range (d + days) else OverflowError.

(** ** [validate_year_and_month], [get_date_range_for_month], [validate_date]
    ([api/utils.py], lines 154-171 and 515-524) *)

Inductive ym_validation :=
| ym_ok (year month : Z)
| ym_error (message : string).

Definition validate_year_and_month (year month : IntArg) : outcome ym_validation :=
  try_except
    (year ← py_int year;
     month ← py_int month;
     if negb ((1 <=? month) && (month <=? 12))
     then Returned (ym_error "Month must be between 1 and 12.")
     else if (year <? 1900) || (year >? 9999)
     then Returned (ym_error "Year must be between 1900 and 9999.")
     else Returned (ym_ok year month))
    (λ e, match e with ValueError _ => true | _ => false end)
    (Returned (ym_error "Invalid year or month format.")).

Definition get_date_range_for_month (year month : Z) : outcome (Z * Z) :=
  start_date ← make_date year month 1;
  let last_day := days_in_month year month in
  end_date ← make_date year month last_day;
  Returned (start_date, end_date).



(** ** The expense sums ([api/utils.py], lines 174-268)

    A [ReceiptItemSplit] row together with what the queries reach through
    its foreign keys: the purchase date of its receipt (nullable), the
    receipt's group and the item's category (nullable). *)

Abbreviation CategoryId := positive.

Record SplitRow := mkRow {
  row_member : MemberId;
  row_amount : Z;
  row_purchase_date : option Z;
  row_group : GroupId;
  row_category : option CategoryId
}.

(** [.aggregate(total=Sum('amount'))['total']]: [None] over no rows. *)
Definition aggregate_sum (rows : list SplitRow) : option Z :=
  match rows with
  | [] => None
  | _ => Some (sumZ (map row_amount rows))
  end.

(** [total or Decimal('0.00')]: a missing or zero total gives 0.00. *)
Definition or_zero (total : option Z) : Z :=
  match total with
  | Some t => if t =? 0 then 0 else t
  | None => 0
  end.

(** [purchase_date__range=(start, end)]; a null date matches no range. *)
Definition in_date_range (start_date end_date : Z) (row : SplitRow) : bool :=
  match row_purchase_date row with
  | Some d => (start_date <=? d) && (d <=? end_date)
  | None => false
  end.

Definition on_date (day : Z) (row : SplitRow) : bool :=
  match row_purchase_date row with
  | Some d => d =? day
  | None => false
  end.

Definition of_member (member : MemberId) (row : SplitRow) : bool :=
  bool_decide (row_member row = member).

Definition calculate_total_expense_for_member (table : list SplitRow)
    (member : MemberId) (start_date end_date : Z) : Z :=
  or_zero (aggregate_sum
             (List.filter (λ r, of_member member r && in_date_range start_date end_date r)
                          table)).

Definition expense_on (table : list SplitRow) (member : MemberId) (day : Z) : Z :=
  or_zero (aggregate_sum
             (List.filter (λ r, of_member member r && on_date day r) table)).

(** [calculate_seven_day_expenses]: the loop [for i in range(7)], from
    [seven_days_ago = today - timedelta(days=6)]. *)
Fixpoint seven_day_loop (table : list SplitRow) (member : MemberId)
    (seven_days_ago : Z) (range : list Z) : or_overflow (list (Z * Z)) :=
  match range with
  | [] => in_range []
  | i :: range' =>
      match date_add seven_days_ago i with
      | OverflowError => OverflowError
      | in_range day =>
          match seven_day_loop table member seven_days_ago range' with
          | OverflowError => OverflowError
          | in_range rest => in_range ((day, expense_on table member day) :: rest)
          end
      end
  end.

Definition calculate_seven_day_expenses (table : list SplitRow)
    (member : MemberId) (today : Z) : or_overflow (list (Z * Z)) :=
  match date_add today (-6) with
  | OverflowError => OverflowError
  | in_range seven_days_ago =>
      seven_day_loop table member seven_days_ago [0; 1; 2; 3; 4; 5; 6]
  end.

(** [calculate_daily_expenses]: the loop [while current_date <= end_date].
    Each turn moves [current_date] one day on, so [end_date - current_date + 1]
    turns, and one more test, are all there can be. *)
Fixpoint daily_loop (fuel : nat) (table : list SplitRow) (member : MemberId)
    (current_date end_date : Z) (expenses : list (Z * Z))
    : or_overflow (list (Z * Z)) :=
  match fuel with
  | O => in_range expenses
  | S fuel' =>
      if current_date <=? end_date then
        let expenses :=
          expenses ++ [(current_date, expense_on table member current_date)] in
        match date_add current_date 1 with
        | OverflowError => OverflowError
        | in_range next => daily_loop fuel' table member next end_date expenses
        end
      else in_range expenses
  end.

Definition calculate_daily_expenses (table : list SplitRow) (member : MemberId)
    (start_date end_date : Z) : or_overflow (list (Z * Z)) :=
  daily_loop (Z.to_nat (end_date - start_date + 1) + 1) table member
             start_date end_date [].



(** [calculate_group_expenses]; [members] is the queryset
    [GroupMember.objects.filter(group=group)].  [sort(..., reverse=True)]
    sorts by decreasing key and, like [sort], keeps equal keys in input
    order. *)
Definition calculate_group_expenses (table : list SplitRow)
    (members : list MemberId) (group : GroupId) (start_date end_date : Z)
    : Z * list (MemberId * Z) :=
  let total :=
    or_zero (aggregate_sum
               (List.filter (λ r, bool_decide (row_group r = group)
                                  && in_date_range start_date end_date r)
                            table)) in
  let member_expenses :=
    map (λ member,
           (member, calculate_total_expense_for_member table member
                      start_date end_date))
        members in
  (total, stable_sort (λ x y, y.2 <? x.2) member_expenses).

(** The sort key of [calculate_group_expenses] with [reverse=True], as a
    key tuple of the ascending sort. *)
Definition by_total_desc (x : MemberId * Z) : Z * Z := (- x.2, 0).

(** ** The history query ([api/utils.py], lines 311-349 and 419-438)

    [request.query_params] is modelled by the finite map from a key to the
    text [QueryDict.get] returns for it. *)

Definition query_get (query_params : gmap string string) (key fallback : string)
    : string :=
  default fallback (query_params !! key).

Record HistoryParams := mkParams {
  params_view : string;
  params_sort_by : string;
  params_sort_order : string;
  params_search : string;
  params_category_id : option string;
  params_page : Z;
  params_page_size : Z
}.

Inductive history_validation :=
| history_ok (params : HistoryParams)
| history_error (message : string).

Definition validate_history_params (query_params : gmap string string)
    : outcome history_validation :=
  let view := query_get query_params "view" "my_items" in
  let sort_by := query_get query_params "sort_by" "purchase_date" in
  let sort_order := query_get query_params "sort_order" "asc" in
  let search := query_get query_params "search" "" in
  let category_id := query_params !! "category_id" in
  let page := query_get query_params "page" "1" in
  let page_size := query_get query_params "page_size" "20" in
  if negb (bool_decide (view ∈ ["my_items"; "group_items"]))
  then Returned (history_error
         "Invalid view parameter. Must be 'my_items' or 'group_items'.")
  else if negb (bool_decide (sort_by ∈ ["purchase_date"; "price"; "quantity"]))
  then Returned (history_error
         "Invalid sort_by parameter. Must be 'purchase_date', 'price', or 'quantity'.")
  else if negb (bool_decide (sort_order ∈ ["asc"; "desc"]))
  then Returned (history_error
         "Invalid sort_order parameter. Must be 'asc' or 'desc'.")
  else
    try_except
      (page ← py_int (arg_str page);
       page_size ← py_int (arg_str page_size);
       if page <? 1
       then Returned (history_error "Page number must be at least 1.")
       else if (page_size <? 1) || (page_size >? 100)
       then Returned (history_error "Page size must be between 1 and 100.")
       else Returned (history_ok (mkParams view sort_by sort_order search
                                           category_id page page_size)))
      (λ e, match e with ValueError _ => true | _ => false end)
      (Returned (history_error "Page and page_size must be integers.")).

(** [sort_field_map] of [apply_sorting], as the list of its entries. *)
Definition sort_field_map (view : string) : list (string * string) :=
  [("purchase_date", if String.eqb view "my_items"
                     then "receipt_item__receipt__purchase_date"
                     else "receipt__purchase_date");
   ("price", if String.eqb view "my_items" then "receipt_item__price" else "price");
   ("quantity", if String.eqb view "my_items"
                then "receipt_item__quantity" else "quantity")].

Fixpoint dict_lookup (key : string) (entries : list (string * string))
    : option string :=
  match entries with
  | [] => None
  | (k, v) :: rest => if String.eqb k key then Some v else dict_lookup key rest
  end.

(** [apply_sorting] up to the call of [items.order_by]: the field name it
    passes, or [None] for the [KeyError] of [sort_field_map[sort_by]]. *)
Definition apply_sorting (view sort_by sort_order : string) : option string :=
  match dict_lookup sort_by (sort_field_map view) with
  | None => None
  | Some sort_field =>
      Some (if String.eqb sort_order "desc" then String.append "-" sort_field
            else sort_field)
  end.

(** ** [calculate_monthly_expenses] ([api/utils.py], lines 197-216)

    The year, month and day of a date are read off its ordinal as
    [datetime] does it ([_ord2ymd]): by the number of whole 400-year,
    100-year, 4-year and 1-year cycles before it, then by an estimate of
    the month that is at most one too large. *)

Definition DI400Y : Z := 146097.
Definition DI100Y : Z := 36524.
Definition DI4Y : Z := 1461.

Definition DAYS_IN_MONTH (month : Z) : Z :=
  nth (Z.to_nat month) [-1; 31; 28; 31; 30; 31; 30; 31; 31; 30; 31; 30; 31] 0.

Definition DAYS_BEFORE_MONTH (month : Z) : Z :=
  nth (Z.to_nat month)
      [-1; 0; 31; 59; 90; 120; 151; 181; 212; 243; 273; 304; 334] 0.

(** The month and the day of the [n]-th day (from 0) of a year. *)
Definition month_and_day (leapyear : bool) (n : Z) : Z * Z :=
  let month := Z.shiftr (n + 50) 5 in
  let preceding :=
    DAYS_BEFORE_MONTH month + (if (month >? 2) && leapyear then 1 else 0) in
  if preceding >? n then
    let month := month - 1 in
    let preceding :=
      preceding
      - (DAYS_IN_MONTH month + (if (month =? 2) && leapyear then 1 else 0)) in
    (month, n - preceding + 1)
  else (month, n - preceding + 1).

Definition ord2ymd (n : Z) : Z * Z * Z :=
  let n := n - 1 in
  let n400 := n / DI400Y in
  let n := n mod DI400Y in
  let year := n400 * 400 + 1 in
  let n100 := n / DI100Y in
  let n := n mod DI100Y in
  let n4 := n / DI4Y in
  let n := n mod DI4Y in
  let n1 := n / 365 in
  let n := n mod 365 in
  let year := year + n100 * 100 + n4 * 4 + n1 in
  if (n1 =? 4) || (n100 =? 4) then (year - 1, 12, 31)
  else
    let leapyear := (n1 =? 3) && (negb (n4 =? 24) || (n100 =? 3)) in
    let '(month, day) := month_and_day leapyear n in
    (year, month, day).

Definition date_year (d : Z) : Z := (ord2ymd d).1.1.
Definition date_month (d : Z) : Z := (ord2ymd d).1.2.
Definition date_day (d : Z) : Z := (ord2ymd d).2.

(** One round of the loop: the entry [(year, month, total_expense)] for
    [i].  [target_date.replace(day=...)] keeps the year and the month, and
    both days exist in that month. *)
Definition monthly_entry (table : list SplitRow) (member : MemberId)
    (current_date i : Z) : or_overflow (Z * Z * Z) :=
  match date_add current_date (- (date_day current_date - 1)) with
  | OverflowError => OverflowError
  | in_range target_date =>
      match date_add target_date (- (30 * i)) with
      | OverflowError => OverflowError
      | in_range target_date =>
          let start_of_month :=
            ymd2ord (date_year target_date) (date_month target_date) 1 in
          let last_day_of_month :=
            days_in_month (date_year target_date) (date_month target_date) in
          let end_of_month :=
            ymd2ord (date_year target_date) (date_month target_date)
                    last_day_of_month in
          let total :=
            calculate_total_expense_for_member table member
              start_of_month end_of_month in
          in_range (date_year target_date, date_month target_date, total)
      end
  end.

Fixpoint monthly_loop (table : list SplitRow) (member : MemberId)
    (current_date : Z) (range : list Z) (expenses : list (Z * Z * Z))
    : or_overflow (list (Z * Z * Z)) :=
  match range with
  | [] => in_range expenses
  | i :: range' =>
      match monthly_entry table member current_date i with
      | OverflowError => OverflowError
      | in_range entry =>
          monthly_loop table member current_date range' (expenses ++ [entry])
      end
  end.

Definition calculate_monthly_expenses (table : list SplitRow) (member : MemberId)
    (current_date : Z) (num_months : Z) : or_overflow (list (Z * Z * Z)) :=
  monthly_loop table member current_date (seqZ 0 num_months) [].

(** The calendar month [i] months before [month] of [year], and the entry
    of a calendar month: its year, its number and the member's total from
    its first to its last day. *)
Definition months_back (year month i : Z) : Z * Z :=
  let k := 12 * year + (month - 1) - i in (k / 12, k mod 12 + 1).

Definition month_entry (table : list SplitRow) (member : MemberId)
    (year_month : Z * Z) : Z * Z * Z :=
  (year_month.1, year_month.2,
   calculate_total_expense_for_member table member
     (ymd2ord year_month.1 year_month.2 1)
     (ymd2ord year_month.1 year_month.2
              (days_in_month year_month.1 year_month.2))).

(** The months from which the walk in steps of 30 days jumps over
    February: March, and April and May of a common year. *)
Definition skips_february (year month : Z) : bool :=
  (month =? 3) || (((month =? 4) || (month =? 5)) && negb (is_leap year)).

(** Where the day 30 * i days before the first of [month] lies, for a year
    that is a leap year or not ([leap]) after a year that is one or not
    ([leap_before]): in the same year (0) or the year before (-1), and in
    which month. *)
Definition walk_back (leap leap_before : bool) (month i : Z) : Z * Z :=
  let n := DAYS_BEFORE_MONTH month + (if (month >? 2) && leap then 1 else 0)
           - 30 * i in
  if 0 <=? n then (0, (month_and_day leap n).1)
  else (-1, (month_and_day leap_before
                           (365 + (if leap_before then 1 else 0) + n)).1).

(** ** [validate_receipt_data] ([api/utils.py], lines 13-35)

    The body of the request is a JSON object; its values are any JSON.  An
    object is the list of its keys and values in order (a Python [dict]
    iterates in that order), and of a number only whether it is zero is
    kept, which is all the validator can observe of it. *)

#[warnings="-register-all"]
Inductive JSON :=
| JNull
| JBool (b : bool)
| JNumber (zero : bool)
| JString (s : string)
| JList (items : list JSON)
| JObject (fields : list (string * JSON)).

(** [d.get(key)] / [key in d] on a [dict] *)
Fixpoint json_get (key : string) (fields : list (string * JSON)) : option JSON :=
  match fields with
  | [] => None
  | (k, v) :: rest => if String.eqb k key then Some v else json_get key rest
  end.

(** [value == text] for a text constant *)
Definition is_text (text : string) (value : JSON) : bool :=
  match value with
  | JString s => String.eqb s text
  | _ => false
  end.

(** [text in s] on texts *)
Definition is_substring (text s : string) : bool :=
  match String.index 0 text s with
  | Some _ => true
  | None => false
  end.

(** [key in value] for a text [key], by the type of [value] *)
Definition py_contains (key : string) (value : JSON) : outcome bool :=
  match value with
  | JObject fields => Returned (bool_decide (is_Some (json_get key fields)))
  | JList items => Returned (existsb (is_text key) items)
  | JString s => Returned (is_substring key s)
  | JNull | JBool _ | JNumber _ => Raised TypeError
  end.

(** [key not in item] and, when the key is in it, [item[key]]: [None] when
    it is not in, the value when it is.  Only an object can be subscripted
    by a text. *)
Definition py_item (key : string) (item : JSON) : outcome (option JSON) :=
  match item with
  | JObject fields => Returned (json_get key fields)
  | _ =>
      is_in ← py_contains key item;
      if (is_in : bool) then Raised TypeError else Returned None
  end.

(** [not value] *)
Definition falsy (value : JSON) : bool :=
  match value with
  | JNull => true
  | JBool b => negb b
  | JNumber zero => zero
  | JString s => String.eqb s ""
  | JList items => match items with [] => true | _ => false end
  | JObject fields => match fields with [] => true | _ => false end
  end.

(** [for item in value]: the items of a list, the keys of an object, the
    characters of a text. *)
Definition py_iter (value : JSON) : outcome (list JSON) :=
  match value with
  | JList items => Returned items
  | JObject fields => Returned (map (λ kv, JString kv.1) fields)
  | JString s =>
      Returned (map (λ c, JString (String c EmptyString)) (list_ascii_of_string s))
  | JNull | JBool _ | JNumber _ => Raised TypeError
  end.

(** An error message: a text, or an f-string with a value in it. *)
Inductive message :=
| text (s : string)
| formatted (before : string) (value : JSON) (after : string).

Inductive receipt_validation :=
| receipt_ok
| receipt_error (error : message).

Definition required_fields : list string :=
  ["name"; "total_amount"; "subtotal"; "tax_amount"; "tax_rate";
   "discount_amount"; "discount_rate"; "purchase_date"; "items"].

(** The loop over the items, from the first of [items] on. *)
Fixpoint validate_items (items : list JSON) : outcome receipt_validation :=
  match items with
  | [] => Returned receipt_ok
  | item :: rest =>
      split_method ← py_item "split_method" item;
      match split_method with
      | None =>
          Returned (receipt_error (text "Each item must have a split_method."))
      | Some split_method =>
          if negb (is_text "EVENLY" split_method || is_text "BY_USER" split_method)
          then Returned (receipt_error
                 (formatted "Invalid split_method: " split_method ""))
          else
            has_user ← (if is_text "BY_USER" split_method
                        then py_contains "split_user_id" item
                        else Returned true);
            if negb has_user
            then Returned (receipt_error
                   (text "split_user_id is required for BY_USER split method."))
            else
              has_payer ← py_contains "paid_by_id" item;
              if negb has_payer
              then Returned (receipt_error
                     (text "paid_by_id is required for each item."))
              else validate_items rest
      end
  end.

Definition validate_receipt_data (receipt_data : list (string * JSON))
    : outcome receipt_validation :=
  match List.find (λ field, negb (bool_decide (is_Some (json_get field receipt_data))))
                  required_fields with
  | Some field =>
      Returned (receipt_error (text (String.append "Missing required field: " field)))
  | None =>
      let items_data := default (JList []) (json_get "items" receipt_data) in
      if falsy items_data
      then Returned (receipt_error (text "At least one item is required."))
      else
        items ← py_iter items_data;
        validate_items items
  end.

(** ** [ShoppingListReorderView.post] ([api/views.py], lines 213-238)

    The table of shopping lists maps the text of a list's id ([str(list.id)])
    to its group and its position; the other columns are written back as
    they were read.  [groups] are the ids of the groups there are and
    [is_member] tells whether the user is a member of the group. *)

Abbreviation ShoppingLists := (gmap string (GroupId * Z)).

Inductive ReorderResponse :=
| reorder_404 (error : string)
| reorder_403 (error : string)
| reorder_400 (error : message)
| reorder_200 (message : string).

(** [list_id not in lists_dict]: a list or an object cannot be hashed, and
    only a text can equal a key. *)
Definition not_in_dict (list_id : JSON) (lists_dict : ShoppingLists)
    : outcome bool :=
  match list_id with
  | JString s => Returned (negb (bool_decide (is_Some (lists_dict !! s))))
  | JList _ | JObject _ => Raised TypeError
  | JNull | JBool _ | JNumber _ => Returned true
  end.

(** The first loop: the first id that is not in [lists_dict], if any. *)
Fixpoint first_not_found (list_ids : list JSON) (lists_dict : ShoppingLists)
    : outcome (option JSON) :=
  match list_ids with
  | [] => Returned None
  | list_id :: rest =>
      missing ← not_in_dict list_id lists_dict;
      if (missing : bool) then Returned (Some list_id)
      else first_not_found rest lists_dict
  end.

(** The second loop, from [position] on.  Every id was found in the first
    loop, so [lists_dict[list_id]] is there. *)
Fixpoint save_positions (list_ids : list JSON) (position : Z)
    (lists_dict lists : ShoppingLists) : ShoppingLists :=
  match list_ids with
  | [] => lists
  | list_id :: rest =>
      let lists :=
        match list_id with
        | JString s =>
            match lists_dict !! s with
            | Some (group, _) => <[s := (group, position)]> lists
            | None => lists
            end
        | _ => lists
        end in
      save_positions rest (position + 1) lists_dict lists
  end.

Definition ShoppingListReorderView_post (groups : list GroupId)
    (is_member : bool) (lists : ShoppingLists)
    (data : list (string * JSON)) (group_id : GroupId)
    : outcome (ReorderResponse * ShoppingLists) :=
  if negb (bool_decide (group_id ∈ groups))
  then Returned (reorder_404 "Group not found", lists)
  else if negb is_member
  then Returned (reorder_403 "You are not a member of this group", lists)
  else
    let list_ids := default (JList []) (json_get "list_ids" data) in
    if falsy list_ids
    then Returned (reorder_400 (text "List IDs are required"), lists)
    else
      let lists_dict := filter (λ kv, kv.2.1 = group_id) lists in
      ids ← py_iter list_ids;
      missing ← first_not_found ids lists_dict;
      match missing with
      | Some list_id =>
          Returned (reorder_400 (formatted "Shopping list " list_id " not found"),
                    lists)
      | None =>
          Returned (reorder_200 "Shopping lists reordered successfully",
                    save_positions ids 0 lists_dict lists)
      end.

(* ===================================================================== *)
(** * Properties *)
(* ===================================================================== *)

Section LedgerStep.
Variables (g : GroupId) (db : Ledger) (s : ReceiptItemSplit).

(** Frame: keys other than the two edges of the split's pair are untouched. *)
Lemma step_frame k :
  k ≠ (g, group_member s, paid_by s) →
  k ≠ (g, paid_by s, group_member s) →
  update_debts_step g db s !! k = db !! k.
Proof.
  intros H1 H2. unfold update_debts_step.
  destruct (decide (group_member s = paid_by s)); [done|].
  destruct (db !! (g, group_member s, paid_by s)) as [x|] eqn:E1.
  - destruct (x + amount s =? 0).
    + by rewrite lookup_delete_ne.
    + by rewrite lookup_insert_ne.
  - destruct (db !! (g, paid_by s, group_member s)) as [y|] eqn:E2.
    + destruct (y - amount s =? 0); [by rewrite lookup_delete_ne|].
      destruct (y - amount s <? 0).
      * rewrite lookup_delete_ne by done. by rewrite lookup_insert_ne.
      * by rewrite lookup_insert_ne.
    + by rewrite lookup_insert_ne.
Qed.
End LedgerStep.

(** *** How one step moves the two edges of its pair *)

Lemma step_self (g : GroupId) (db : Ledger) (s : ReceiptItemSplit) :
  group_member s = paid_by s → update_debts_step g db s = db.
Proof. intros H. unfold update_debts_step. by rewrite decide_True. Qed.

Lemma step_forward (g : GroupId) (db : Ledger) (s : ReceiptItemSplit) (x : Z) :
  group_member s ≠ paid_by s →
  db !! (g, group_member s, paid_by s) = Some x →
  update_debts_step g db s =
    if x + amount s =? 0 then delete (g, group_member s, paid_by s) db
    else <[(g, group_member s, paid_by s) := x + amount s]> db.
Proof.
  intros Hne Hx. unfold update_debts_step.
  rewrite decide_False by done. by rewrite Hx.
Qed.

Lemma step_reverse (g : GroupId) (db : Ledger) (s : ReceiptItemSplit) (y : Z) :
  group_member s ≠ paid_by s →
  db !! (g, group_member s, paid_by s) = None →
  db !! (g, paid_by s, group_member s) = Some y →
  update_debts_step g db s =
    if y - amount s =? 0 then delete (g, paid_by s, group_member s) db
    else if y - amount s <? 0
    then delete (g, paid_by s, group_member s)
           (<[(g, group_member s, paid_by s) := - (y - amount s)]> db)
    else <[(g, paid_by s, group_member s) := y - amount s]> db.
Proof.
  intros Hne Hx Hy. unfold update_debts_step.
  rewrite decide_False by done. by rewrite Hx, Hy.
Qed.

Lemma step_fresh (g : GroupId) (db : Ledger) (s : ReceiptItemSplit) :
  group_member s ≠ paid_by s →
  db !! (g, group_member s, paid_by s) = None →
  db !! (g, paid_by s, group_member s) = None →
  update_debts_step g db s = <[(g, group_member s, paid_by s) := amount s]> db.
Proof.
  intros Hne Hx Hy. unfold update_debts_step.
  rewrite decide_False by done. by rewrite Hx, Hy.
Qed.

Lemma swapped_key_ne (g : GroupId) (a b : MemberId) :
  a ≠ b → (g, a, b) ≠ (g, b, a).
Proof. intros H E. inversion E. done. Qed.

(** The signed balance of the split's own pair grows by exactly its amount. *)
Lemma step_net_own (g : GroupId) (db : Ledger) (s : ReceiptItemSplit) :
  group_member s ≠ paid_by s →
  net (update_debts_step g db s) g (group_member s) (paid_by s)
  = net db g (group_member s) (paid_by s) + amount s.
Proof.
  intros Hne. destruct s as [d c m]; simpl in *.
  pose proof (swapped_key_ne g d c Hne) as Hk.
  assert ((g, c, d) ≠ (g, d, c)) as Hk' by (intros E; by apply Hk).
  unfold net, owed.
  destruct (db !! (g, d, c)) as [x|] eqn:E1.
  - rewrite (step_forward g db (mkSplit d c m) x) by done. simpl.
    destruct (x + m =? 0) eqn:Ez.
    + rewrite lookup_delete_eq, lookup_delete_ne by done.
      apply Z.eqb_eq in Ez. simpl. lia.
    + rewrite lookup_insert_eq, lookup_insert_ne by done. simpl. lia.
  - destruct (db !! (g, c, d)) as [y|] eqn:E2.
    + rewrite (step_reverse g db (mkSplit d c m) y) by done. simpl.
      destruct (y - m =? 0) eqn:Ez.
      * rewrite lookup_delete_eq, lookup_delete_ne, E1 by done.
        apply Z.eqb_eq in Ez. simpl. lia.
      * destruct (y - m <? 0) eqn:El.
        -- rewrite lookup_delete_eq, lookup_delete_ne, lookup_insert_eq by done.
           simpl. lia.
        -- rewrite lookup_insert_eq, lookup_insert_ne, E1 by done. simpl. lia.
    + rewrite (step_fresh g db (mkSplit d c m)) by done. simpl.
      rewrite lookup_insert_eq, lookup_insert_ne, E2 by done. simpl. lia.
Qed.

Lemma net_antisym (db : Ledger) (g : GroupId) (a b : MemberId) : net db g a b = - net db g b a.
Proof. unfold net. lia. Qed.

Lemma split_signed_self (a b : MemberId) (s : ReceiptItemSplit) :
  group_member s = paid_by s → split_signed a b s = 0.
Proof.
  intros H. unfold split_signed.
  destruct (decide (group_member s = a ∧ paid_by s = b)) as [[??]|?];
  destruct (decide (group_member s = b ∧ paid_by s = a)) as [[??]|?];
    try lia; exfalso; naive_solver.
Qed.

(** Every signed balance moves by the split's signed contribution: nothing is
    dropped and nothing is counted twice. *)
Lemma step_net (g : GroupId) (db : Ledger) (s : ReceiptItemSplit) (a b : MemberId) :
  net (update_debts_step g db s) g a b = net db g a b + split_signed a b s.
Proof.
  destruct (decide (group_member s = paid_by s)) as [Heq|Hne].
  { rewrite step_self, split_signed_self by done. lia. }
  unfold split_signed.
  destruct (decide (group_member s = a ∧ paid_by s = b)) as [[Ea Eb]|N1].
  - subst a b. rewrite decide_False by (intros [E _]; by apply Hne).
    rewrite step_net_own by done. lia.
  - destruct (decide (group_member s = b ∧ paid_by s = a)) as [[Eb Ea]|N2].
    + subst a b. rewrite (net_antisym _ g (paid_by s)), step_net_own by done.
      rewrite (net_antisym db g (paid_by s)). lia.
    + unfold net, owed. rewrite !step_frame; [lia| | | |];
        intros E; inversion E; naive_solver.
Qed.

Lemma update_debts_app (l1 l2 : list ReceiptItemSplit) (g : GroupId) (db : Ledger) :
  update_debts (l1 ++ l2) g db = update_debts l2 g (update_debts l1 g db).
Proof. unfold update_debts. apply foldl_app. Qed.

Lemma update_debts_net (splits : list ReceiptItemSplit) (g : GroupId) (db : Ledger) (a b : MemberId) :
  net (update_debts splits g db) g a b = net db g a b + folded_signed splits a b.
Proof.
  revert db. induction splits as [|s l IH]; intros db; simpl.
  - unfold update_debts. simpl. lia.
  - change (update_debts (s :: l) g db)
      with (update_debts l g (update_debts_step g db s)).
    rewrite IH, step_net. lia.
Qed.

(** *** The fold, case by case *)

(** C2.  Folding one obligation with [debtor ≠ creditor]: a same-direction
    edge is increased by the amount and deleted when the sum is exactly zero;
    otherwise a reverse edge is decreased by the amount, deleted at zero,
    kept when still positive, and replaced by a new forward edge holding the
    absolute value when it went negative; otherwise a new forward edge is
    created.  Folding (B owes A, 35.00) onto the single edge
    (A owes B, 20.00) leaves exactly the edge (B owes A, 15.00). *)
Theorem update_debts_fold_cases (g : GroupId) (db : Ledger)
    (debtor creditor : MemberId) (amt : Z) :
  debtor ≠ creditor →
  let db' := update_debts [mkSplit debtor creditor amt] g db in
  (∀ x, db !! (g, debtor, creditor) = Some x →
     db' !! (g, debtor, creditor) = (if x + amt =? 0 then None else Some (x + amt))
     ∧ db' !! (g, creditor, debtor) = db !! (g, creditor, debtor))
  ∧ (∀ y, db !! (g, debtor, creditor) = None →
          db !! (g, creditor, debtor) = Some y →
       (y - amt = 0 →
          db' !! (g, creditor, debtor) = None ∧ db' !! (g, debtor, creditor) = None)
       ∧ (0 < y - amt →
          db' !! (g, creditor, debtor) = Some (y - amt)
          ∧ db' !! (g, debtor, creditor) = None)
       ∧ (y - amt < 0 →
          db' !! (g, creditor, debtor) = None
          ∧ db' !! (g, debtor, creditor) = Some (Z.abs (y - amt))))
  ∧ (db !! (g, debtor, creditor) = None →
     db !! (g, creditor, debtor) = None →
       db' !! (g, debtor, creditor) = Some amt
       ∧ db' !! (g, creditor, debtor) = None)
  ∧ update_debts [mkSplit debtor creditor 3500] g {[ (g, creditor, debtor) := 2000 ]}
    = {[ (g, debtor, creditor) := 1500 ]}.
Proof.
  intros Hne db'. subst db'. unfold update_debts. cbn [foldl].
  pose proof (swapped_key_ne g debtor creditor Hne) as Hk.
  assert ((g, creditor, debtor) ≠ (g, debtor, creditor)) as Hk'
    by (intros E; by apply Hk).
  repeat split.
  - rewrite (step_forward g db (mkSplit debtor creditor amt) x) by done. simpl.
    destruct (x + amt =? 0).
    + apply lookup_delete_eq.
    + apply lookup_insert_eq.
  - rewrite (step_forward g db (mkSplit debtor creditor amt) x) by done. simpl.
    destruct (x + amt =? 0).
    + by rewrite lookup_delete_ne.
    + by rewrite lookup_insert_ne.
  - rewrite (step_reverse g db (mkSplit debtor creditor amt) y) by done. simpl.
    rewrite (proj2 (Z.eqb_eq _ _)) by done. apply lookup_delete_eq.
  - rewrite (step_reverse g db (mkSplit debtor creditor amt) y) by done. simpl.
    rewrite (proj2 (Z.eqb_eq _ _)) by done. by rewrite lookup_delete_ne.
  - rewrite (step_reverse g db (mkSplit debtor creditor amt) y) by done. simpl.
    rewrite (proj2 (Z.eqb_neq _ _)), (proj2 (Z.ltb_ge _ _)) by lia.
    apply lookup_insert_eq.
  - rewrite (step_reverse g db (mkSplit debtor creditor amt) y) by done. simpl.
    rewrite (proj2 (Z.eqb_neq _ _)), (proj2 (Z.ltb_ge _ _)) by lia.
    by rewrite lookup_insert_ne.
  - rewrite (step_reverse g db (mkSplit debtor creditor amt) y) by done. simpl.
    rewrite (proj2 (Z.eqb_neq _ _)), (proj2 (Z.ltb_lt _ _)) by lia.
    apply lookup_delete_eq.
  - rewrite (step_reverse g db (mkSplit debtor creditor amt) y) by done. simpl.
    rewrite (proj2 (Z.eqb_neq _ _)), (proj2 (Z.ltb_lt _ _)) by lia.
    rewrite lookup_delete_ne, lookup_insert_eq by done. f_equal. lia.
  - rewrite (step_fresh g db (mkSplit debtor creditor amt)) by done. simpl.
    apply lookup_insert_eq.
  - rewrite (step_fresh g db (mkSplit debtor creditor amt)) by done. simpl.
    by rewrite lookup_insert_ne.
  - rewrite (step_reverse g _ (mkSplit debtor creditor 3500) 2000); simpl;
      [| done | by rewrite lookup_singleton_ne | by rewrite lookup_singleton_eq].
    rewrite delete_insert_ne by done.
    by rewrite delete_singleton_eq.
Qed.

Lemma update_debts_fold_cases_witness :
  update_debts [mkSplit 2 1 3500] 1 {[ (1, 1, 2)%positive := 2000 ]}
  = {[ (1, 2, 1)%positive := 1500 ]}.
Proof.
  apply (update_debts_fold_cases 1%positive ∅ 2%positive 1%positive 0).
  discriminate.
Defined.

(** C7.  An obligation whose debtor is its creditor leaves the ledger
    exactly as it was, whatever the ledger and the amount. *)
Theorem update_debts_self_noop (g : GroupId) (db : Ledger) (m : MemberId) (amt : Z) :
  update_debts [mkSplit m m amt] g db = db.
Proof. unfold update_debts. cbn [foldl]. by apply step_self. Qed.

(** C10.  Folding one obligation can only touch the rows of its own group
    whose members are the obligation's debtor and creditor, in either
    direction; every row of another pair or of another group is unchanged. *)
Theorem update_debts_frame (g : GroupId) (db : Ledger) (s : ReceiptItemSplit)
    (g' : GroupId) (a b : MemberId) :
  ¬ (g' = g ∧ ((a = group_member s ∧ b = paid_by s)
               ∨ (a = paid_by s ∧ b = group_member s))) →
  update_debts [s] g db !! (g', a, b) = db !! (g', a, b).
Proof.
  intros H. unfold update_debts. cbn [foldl].
  apply step_frame; intros E; inversion E; naive_solver.
Qed.

Lemma update_debts_frame_witness :
  update_debts [mkSplit 2 1 700] 1 {[ (1, 3, 1)%positive := 250 ]}
    !! (1, 3, 1)%positive
  = ({[ (1, 3, 1)%positive := 250 ]} : gmap _ Z) !! (1, 3, 1)%positive.
Proof.
  apply (update_debts_frame 1%positive _ (mkSplit 2 1 700) 1%positive 3%positive 1%positive).
  simpl. intros [_ [[E _]|[E _]]]; discriminate E.
Defined.

(** *** The single-edge invariant *)

Lemma ledger_inv_empty : ledger_inv ∅.
Proof.
  split.
  - intros k a H. by rewrite lookup_empty in H.
  - intros g a b [x H] _. by rewrite lookup_empty in H.
Qed.

(** Closes the two halves of [ledger_inv] for a table obtained from [db] by
    inserts and deletes, given the halves [Hp] and [Hs] for [db]. *)
Ltac none_some :=
  match goal with
  | E : _ = None, H : _ = Some _ |- _ =>
      by pose proof (eq_trans (eq_sym E) H)
  end.

Ltac inv_after Hp Hs :=
  split;
  [ intros ? ?; rewrite ?lookup_delete, ?lookup_insert;
    repeat case_decide; simplify_eq; try (by apply Hp);
    intros; simplify_eq; lia
  | intros ? ? ?; rewrite ?lookup_delete, ?lookup_insert;
    repeat case_decide; simplify_eq; try (by apply Hs);
    intros [? ?] [? ?]; simplify_eq;
    first [ none_some | eapply Hs; eapply mk_is_Some; eassumption ] ].

(** With a strictly positive amount the step keeps the invariant: this is the
    part of the single-edge property the code does establish. *)
Lemma step_inv_pos (g : GroupId) (db : Ledger) (s : ReceiptItemSplit) :
  0 < amount s → ledger_inv db → ledger_inv (update_debts_step g db s).
Proof.
  intros Hpos [Hp Hs].
  destruct (decide (group_member s = paid_by s)) as [Heq|Hne].
  { rewrite step_self by done. by split. }
  destruct s as [d c m]; simpl in *.
  destruct (db !! (g, d, c)) as [x|] eqn:E1.
  - assert (db !! (g, c, d) = None) as E2.
    { destruct (db !! (g, c, d)) eqn:E; [|done].
      exfalso. apply (Hs g d c); rewrite ?E1, ?E; eauto. }
    pose proof (Hp _ _ E1) as Hx.
    rewrite (step_forward g db (mkSplit d c m) x) by done. simpl.
    rewrite (proj2 (Z.eqb_neq _ _)) by lia.
    inv_after Hp Hs.
  - destruct (db !! (g, c, d)) as [y|] eqn:E2.
    + pose proof (Hp _ _ E2) as Hy.
      rewrite (step_reverse g db (mkSplit d c m) y) by done. simpl.
      destruct (y - m =? 0) eqn:Ez; [|destruct (y - m <? 0) eqn:El].
      * inv_after Hp Hs.
      * apply Z.ltb_lt in El. inv_after Hp Hs.
      * apply Z.ltb_ge in El. apply Z.eqb_neq in Ez. inv_after Hp Hs.
    + rewrite (step_fresh g db (mkSplit d c m)) by done. simpl.
      inv_after Hp Hs.
Qed.

Lemma update_debts_inv_pos (splits : list ReceiptItemSplit) (g : GroupId) (db : Ledger) :
  Forall (λ s, 0 < amount s) splits → ledger_inv db →
  ledger_inv (update_debts splits g db).
Proof.
  intros Hall. revert db. induction Hall as [|s l Hs _ IH]; intros db Hinv.
  - done.
  - change (update_debts (s :: l) g db)
      with (update_debts l g (update_debts_step g db s)).
    apply IH. by apply step_inv_pos.
Qed.

(** C1 (the code departs from it).  The empty ledger satisfies the invariant,
    but folding the obligation (member 2 owes member 1, 0.00) into it reaches
    the final [else] of [update_debts], which creates the row without the
    zero test of the two other branches: the row (2 owes 1) exists with
    amount 0 and the invariant is lost.  Such obligations do arise: an item
    of 0.01 split EVENLY over three members gives three splits of 0.00. *)
Theorem update_debts_zero_amount_row :
  ledger_inv ∅
  ∧ update_debts [mkSplit 2 1 0] 1 ∅ !! (1, 2, 1)%positive = Some 0
  ∧ ¬ ledger_inv (update_debts [mkSplit 2 1 0] 1 ∅)
  ∧ create_receipt_item_and_splits
      (mkItem (DFin 1 (-2)) EVENLY (Some 1%positive) None) [1; 2; 3]%positive
    = Returned [mkFields 1 (DFin 0 (-2)) 1; mkFields 2 (DFin 0 (-2)) 1;
                mkFields 3 (DFin 0 (-2)) 1]
  ∧ update_debts [mkSplit 1 1 0; mkSplit 2 1 0; mkSplit 3 1 0] 1 ∅
    = {[ (1, 2, 1)%positive := 0; (1, 3, 1)%positive := 0 ]}.
Proof.
  split; [apply ledger_inv_empty|]. split; [reflexivity|].
  split; [|split; [by vm_compute|reflexivity]].
  intros [Hp _].
  specialize (Hp (1, 2, 1)%positive 0 eq_refl). lia.
Qed.

(** *** Order of folding *)

Lemma folded_signed_perm (l1 l2 : list ReceiptItemSplit) (a b : MemberId) :
  l1 ≡ₚ l2 → folded_signed l1 a b = folded_signed l2 a b.
Proof.
  induction 1 as [|x l l' _ IH|x y l|l l' l'' _ IH1 _ IH2]; simpl; lia.
Qed.

(** Rows of another group, and rows from a member to themselves, are never
    touched by a batch. *)
Lemma batch_frame (splits : list ReceiptItemSplit) (g : GroupId)
    (db : Ledger) (g' : GroupId) (a b : MemberId) :
  g' ≠ g ∨ a = b →
  update_debts splits g db !! (g', a, b) = db !! (g', a, b).
Proof.
  intros H. revert db. induction splits as [|s l IH]; intros db; [done|].
  change (update_debts (s :: l) g db)
    with (update_debts l g (update_debts_step g db s)).
  rewrite IH.
  destruct (decide (group_member s = paid_by s)); [by rewrite step_self|].
  apply step_frame; intros E; inversion E; destruct H; congruence.
Qed.

(** Under the invariant a row is determined by the signed balance of its pair. *)
Lemma inv_lookup_net (g : GroupId) (db : Ledger) (a b : MemberId) :
  ledger_inv db →
  db !! (g, a, b) = if 0 <? net db g a b then Some (net db g a b) else None.
Proof.
  intros [Hp Hs]. unfold net, owed.
  destruct (db !! (g, a, b)) as [x|] eqn:E1.
  - assert (db !! (g, b, a) = None) as E2.
    { destruct (db !! (g, b, a)) eqn:E; [|done].
      exfalso. apply (Hs g a b); rewrite ?E1, ?E; eauto. }
    rewrite E2. simpl. pose proof (Hp _ _ E1).
    rewrite (proj2 (Z.ltb_lt _ _)) by lia. f_equal. lia.
  - destruct (db !! (g, b, a)) as [y|] eqn:E2; simpl.
    + pose proof (Hp _ _ E2). by rewrite (proj2 (Z.ltb_ge _ _)) by lia.
    + done.
Qed.

(** With strictly positive amounts, and from a ledger satisfying the
    invariant, the final table does not depend on the order of the batch. *)
Lemma update_debts_perm_pos (l1 l2 : list ReceiptItemSplit) (g : GroupId) (db : Ledger) :
  ledger_inv db → Forall (λ s, 0 < amount s) l1 → l1 ≡ₚ l2 →
  update_debts l1 g db = update_debts l2 g db.
Proof.
  intros Hinv Hpos Hperm.
  assert (Forall (λ s, 0 < amount s) l2) as Hpos2 by (by rewrite <- Hperm).
  apply map_eq. intros [[g' a] b].
  destruct (decide (g' = g)) as [->|Hg].
  - rewrite (inv_lookup_net g (update_debts l1 g db)) by (by apply update_debts_inv_pos).
    rewrite (inv_lookup_net g (update_debts l2 g db)) by (by apply update_debts_inv_pos).
    rewrite !update_debts_net, (folded_signed_perm l1 l2) by done. done.
  - rewrite !batch_frame by (by left). done.
Qed.

(** C8 (the code departs from it).  From the ledger holding the single row
    (2 owes 1, 5.00), the batch [(1 owes 2, 5.00); (2 owes 1, 0.00)] leaves
    the row (2 owes 1, 0.00), while the same two obligations in the other
    order leave no row at all. *)
Theorem update_debts_order_matters :
  let db0 : gmap (positive * positive * positive) Z := {[ (1, 2, 1)%positive := 500 ]} in
  ledger_inv db0
  ∧ [mkSplit 1 2 500; mkSplit 2 1 0] ≡ₚ [mkSplit 2 1 0; mkSplit 1 2 500]
  ∧ update_debts [mkSplit 1 2 500; mkSplit 2 1 0] 1 db0 = {[ (1, 2, 1)%positive := 0 ]}
  ∧ update_debts [mkSplit 2 1 0; mkSplit 1 2 500] 1 db0 = ∅
  ∧ update_debts [mkSplit 1 2 500; mkSplit 2 1 0] 1 db0
    ≠ update_debts [mkSplit 2 1 0; mkSplit 1 2 500] 1 db0.
Proof.
  intros db0. subst db0. split; [|split; [|split; [|split]]].
  - split.
    + intros k a. rewrite lookup_singleton. case_decide; [|done].
      intros E; inversion E; lia.
    + intros g a b. rewrite !lookup_singleton.
      repeat case_decide; simplify_eq; intros [? ?] [? ?]; done.
  - apply perm_swap.
  - reflexivity.
  - reflexivity.
  - intros E. apply (f_equal (λ m : gmap (positive * positive * positive) Z,
                               m !! (1, 2, 1)%positive)) in E.
    vm_compute in E. discriminate E.
Qed.

(** *** Conservation *)

Lemma sumZ_app (l1 l2 : list Z) : sumZ (l1 ++ l2) = sumZ l1 + sumZ l2.
Proof. induction l1 as [|x l IH]; simpl; lia. Qed.

Lemma sumZ_map_add {A} (f h : A → Z) (l : list A) :
  sumZ (map (λ x, f x + h x) l) = sumZ (map f l) + sumZ (map h l).
Proof. induction l as [|x l IH]; simpl; lia. Qed.

Lemma sumZ_map_zero {A} (f : A → Z) (l : list A) :
  (∀ x, x ∈ l → f x = 0) → sumZ (map f l) = 0.
Proof.
  induction l as [|x l IH]; intros H; simpl; [done|].
  rewrite H, IH; [done| |]; intros; try apply H; set_solver.
Qed.

(** Summing an indicator of one member over a duplicate-free roster. *)
Lemma sumZ_indicator (P : Prop) `{!Decision P} (d : MemberId) (a : Z)
    (members : list MemberId) :
  NoDup members → d ∈ members →
  sumZ (map (λ m, if decide (P ∧ d = m) then a else 0) members)
  = if decide P then a else 0.
Proof.
  intros Hnd Hin. destruct (decide P) as [HP|HP].
  2: { apply sumZ_map_zero. intros m _. rewrite decide_False; tauto. }
  induction Hnd as [|x l Hx Hnd IH]; [by apply elem_of_nil in Hin|].
  simpl. apply elem_of_cons in Hin as [->|Hin].
  - rewrite decide_True by done.
    rewrite sumZ_map_zero; [lia|].
    intros m Hm. rewrite decide_False; [done|]. intros [_ ->]. done.
  - rewrite decide_False by (intros [_ ->]; done).
    rewrite IH by done. lia.
Qed.

(** Over a roster covering the rows of group [g], what members owe and what
    members are owed add up to the same total. *)
Lemma totals_balance (entries : list ((positive * positive * positive) * Z))
    (g : GroupId) (members : list MemberId) :
  NoDup members →
  (∀ g' d c a, ((g', d, c), a) ∈ entries → g' = g → d ∈ members ∧ c ∈ members) →
  sumZ (map (λ m, sumZ (map (row_owed_by g m) entries)) members)
  = sumZ (map (λ m, sumZ (map (row_owed_to g m) entries)) members).
Proof.
  intros Hnd. induction entries as [|[[[g' d] c] a] l IH]; intros Hcov.
  - done.
  - cbn [map sumZ foldr]. fold sumZ.
    rewrite (sumZ_map_add (λ m, row_owed_by g m (g', d, c, a))
                          (λ m, sumZ (map (row_owed_by g m) l))).
    rewrite (sumZ_map_add (λ m, row_owed_to g m (g', d, c, a))
                          (λ m, sumZ (map (row_owed_to g m) l))).
    rewrite IH by (intros; eapply Hcov; [right; eassumption|done]).
    f_equal. unfold row_owed_by, row_owed_to.
    destruct (decide (g' = g)) as [Hg|Hg].
    + destruct (Hcov g' d c a) as [Hd Hc]; [left|done|].
      rewrite !sumZ_indicator by done. done.
    + rewrite !sumZ_map_zero; [done| |]; intros m _;
        rewrite decide_False; tauto.
Qed.

(** Every row of the final table was either there before or belongs to the
    pair of one of the folded splits. *)
Lemma update_debts_rows (splits : list ReceiptItemSplit) (g : GroupId)
    (db : Ledger) (k : positive * positive * positive) :
  is_Some (update_debts splits g db !! k) →
  is_Some (db !! k)
  ∨ ∃ s, s ∈ splits ∧ (k = (g, group_member s, paid_by s)
                        ∨ k = (g, paid_by s, group_member s)).
Proof.
  revert db. induction splits as [|s l IH]; intros db H; [by left|].
  change (update_debts (s :: l) g db)
    with (update_debts l g (update_debts_step g db s)) in H.
  destruct (IH _ H) as [Hstep|(s' & Hin & Hk)].
  - destruct (decide (k = (g, group_member s, paid_by s))) as [->|N1].
    { right. exists s. split; [left|by left]. }
    destruct (decide (k = (g, paid_by s, group_member s))) as [->|N2].
    { right. exists s. split; [left|by right]. }
    left. by rewrite step_frame in Hstep.
  - right. exists s'. split; [by right|done].
Qed.

(** C3.  Folding any batch into the empty ledger of a group conserves money:
    over the roster, what members owe minus what they are owed sums to zero,
    and the signed balance of every pair is the signed sum of the
    obligations folded for that pair. *)
Theorem update_debts_conservation (splits : list ReceiptItemSplit) (g : GroupId)
    (members : list MemberId) :
  NoDup members →
  Forall (λ s, group_member s ∈ members ∧ paid_by s ∈ members) splits →
  let db := update_debts splits g ∅ in
  sumZ (map (λ m, total_owed_by db g m - total_owed_to db g m) members) = 0
  ∧ ∀ a b, net db g a b = folded_signed splits a b.
Proof.
  intros Hnd Hcov db. split.
  - rewrite (sumZ_map_add (total_owed_by db g) (λ m, - total_owed_to db g m)).
    assert (sumZ (map (λ m, - total_owed_to db g m) members)
            = - sumZ (map (total_owed_to db g) members)) as ->.
    { clear. induction members as [|x l IH]; simpl; lia. }
    unfold total_owed_by, total_owed_to.
    rewrite (totals_balance (map_to_list db) g members Hnd); [lia|].
    intros g' d c a Hin ->.
    apply elem_of_map_to_list in Hin.
    destruct (update_debts_rows splits g ∅ (g, d, c)) as [[x Hx]|(s & Hs & Hk)].
    + by eexists.
    + by rewrite lookup_empty in Hx.
    + destruct (proj1 (Forall_forall _ _) Hcov s Hs) as [H1 H2].
      destruct Hk as [Hk|Hk]; inversion Hk; subst; done.
  - intros a b. subst db. rewrite update_debts_net.
    unfold net, owed. rewrite !lookup_empty. simpl. lia.
Qed.

Lemma update_debts_conservation_witness :
  let db := update_debts [mkSplit 2 1 1000; mkSplit 1 2 400; mkSplit 3 1 250] 1 ∅ in
  sumZ (map (λ m, total_owed_by db 1%positive m - total_owed_to db 1%positive m)
            [1; 2; 3]%positive) = 0
  ∧ ∀ a b, net db 1%positive a b
           = folded_signed [mkSplit 2 1 1000; mkSplit 1 2 400; mkSplit 3 1 250] a b.
Proof.
  apply (update_debts_conservation
           [mkSplit 2 1 1000; mkSplit 1 2 400; mkSplit 3 1 250] 1%positive
           [1; 2; 3]%positive).
  - apply (bool_decide_unpack _). vm_compute. exact I.
  - apply (bool_decide_unpack _). vm_compute. exact I.
Defined.

(** * Settlement *)

(** C5 (the code departs from it).  A non-numeric amount does not come back
    as the error pair: [Decimal("abc")] raises [InvalidOperation], which is
    not among [(TypeError, ValueError)], so the handler that returns
    "Invalid payment amount." is skipped and the exception leaves the
    function.  The same happens for a missing amount ([None]). *)
Theorem validate_payment_amount_non_numeric :
  validate_payment_amount (PyStr "abc") (DFin 5000 (-2)) = Raised InvalidOperation
  ∧ validate_payment_amount PyNone (DFin 5000 (-2)) = Raised InvalidOperation.
Proof. split; reflexivity. Qed.

(** What the function does establish: an accepted amount is the input
    rounded half-up to cents, strictly positive and within the debt. *)
Lemma validate_payment_amount_ok (v : PyValue) (edge : Z) (q : Decimal) :
  validate_payment_amount v (DFin edge (-2)) = Returned (ok_amount q) →
  ∃ c e p, Decimal_of_str (py_str v) = Returned (DFin c e)
           ∧ p = rescale ROUND_HALF_UP c e (-2)
           ∧ q = DFin p (-2) ∧ 0 < p ∧ p ≤ edge.
Proof.
  unfold validate_payment_amount, try_except.
  destruct (Decimal_of_str (py_str v)) as [[c e|neg|sig]|ex] eqn:Hparse;
    cbn [mbind outcome_bind].
  - destruct (quantize (DFin c e) (DFin 0 (-2)) ROUND_HALF_UP) as [r|ex] eqn:Hq;
      cbn [mbind outcome_bind]; [|by destruct ex].
    assert (r = DFin (rescale ROUND_HALF_UP c e (-2)) (-2)) as ->.
    { revert Hq. unfold quantize. cbn [negb andb].
      change ((Etiny <=? -2) && (-2 <=? Emax)) with true. cbn [negb].
      destruct (c =? 0) eqn:Hc.
      - intros [= <-]. unfold rescale. by rewrite Hc.
      - repeat (match goal with |- context [if ?b then _ else _] =>
                  destruct b end; try discriminate).
        by intros [= <-]. }
    set (p := rescale ROUND_HALF_UP c e (-2)).
    unfold dec_le, dec_gt, dec_compare. cbn [mbind outcome_bind mret outcome_ret].
    change (Z.min (-2) 0) with (-2). change (Z.min (-2) (-2)) with (-2).
    change (10 ^ (-2 - -2)) with 1. change (0 * 10 ^ (0 - -2)) with 0.
    rewrite !Z.mul_1_r.
    destruct (p ?= 0) eqn:Hp0; try discriminate.
    destruct (p ?= edge) eqn:Hpe; try discriminate.
    all: intros [= <-]; exists c, e, p; repeat split; try done.
    all: clearbody p; apply Z.compare_gt_iff in Hp0; try lia.
    + apply Z.compare_eq in Hpe. lia.
    + rewrite Z.compare_lt_iff in Hpe. lia.
  - cbn. discriminate.
  - destruct sig; cbn; discriminate.
  - by destruct ex.
Qed.

(** C6.  Settling a validated payment lowers the edge by the payment; the
    row is deleted, and the caller told the debt is fully paid, exactly when
    the result is zero, and kept with the reduced amount otherwise.  On an
    edge of 50.00: paying 50.00 deletes it, 50.01 is rejected, and 49.999 is
    rounded to 50.00 and settles the debt in full. *)
Theorem pay_debt_settlement (groups : list GroupId) (db : Ledger)
    (user debtor creditor : MemberId) (group_id : GroupId)
    (amount : PyValue) (edge : Z) (paid : Decimal) :
  group_id ∈ groups →
  db !! (group_id, debtor, creditor) = Some edge →
  user = debtor ∨ user = creditor →
  validate_payment_amount amount (DFin edge (-2)) = Returned (ok_amount paid) →
  ∃ payment,
    paid = DFin payment (-2) ∧ 0 < payment ≤ edge
    ∧ PayDebtView_post groups db (Some user) amount group_id
        (group_id, debtor, creditor)
      = Returned
          (if edge - payment =? 0
           then (HTTP_200_message "Debt fully paid and deleted.",
                 delete (group_id, debtor, creditor) db)
           else (HTTP_200_debt debtor creditor (edge - payment),
                 <[(group_id, debtor, creditor) := edge - payment]> db))
    ∧ PayDebtView_post [1%positive] {[ (1, 2, 1)%positive := 5000 ]} (Some 2%positive)
        (PyStr "50.00") 1%positive (1, 2, 1)%positive
      = Returned (HTTP_200_message "Debt fully paid and deleted.", ∅)
    ∧ PayDebtView_post [1%positive] {[ (1, 2, 1)%positive := 5000 ]} (Some 2%positive)
        (PyStr "50.01") 1%positive (1, 2, 1)%positive
      = Returned (HTTP_400 "Payment amount cannot exceed the debt amount.",
                  {[ (1, 2, 1)%positive := 5000 ]})
    ∧ validate_payment_amount (PyStr "49.999") (DFin 5000 (-2))
      = Returned (ok_amount (DFin 5000 (-2)))
    ∧ PayDebtView_post [1%positive] {[ (1, 2, 1)%positive := 5000 ]} (Some 2%positive)
        (PyStr "49.999") 1%positive (1, 2, 1)%positive
      = Returned (HTTP_200_message "Debt fully paid and deleted.", ∅).
Proof.
  intros Hg Hdb Huser Hval.
  destruct (validate_payment_amount_ok _ _ _ Hval) as (c & e & p & _ & _ & -> & Hpos & Hle).
  exists p. split; [done|]. split; [lia|]. split; [|by repeat split].
  unfold PayDebtView_post.
  rewrite bool_decide_eq_true_2 by done. cbn [negb]. cbv beta iota.
  rewrite decide_True by done. rewrite Hdb.
  rewrite bool_decide_eq_true_2 by done. cbn [negb].
  rewrite Hval. cbn [mbind outcome_bind cents].
  change (-2 <=? -2) with true. cbn match.
  change (10 ^ (-2 + 2)) with 1. rewrite Z.mul_1_r.
  destruct (edge - p =? 0) eqn:Hz.
  - apply Z.eqb_eq in Hz. by rewrite (proj2 (Z.leb_le _ _)) by lia.
  - apply Z.eqb_neq in Hz. by rewrite (proj2 (Z.leb_gt _ _)) by lia.
Qed.

Lemma pay_debt_settlement_witness :
  ∃ payment,
    DFin 2000 (-2) = DFin payment (-2) ∧ 0 < payment ≤ 5000
    ∧ PayDebtView_post [1%positive] {[ (1, 2, 1)%positive := 5000 ]} (Some 1%positive)
        (PyNumber "20") 1%positive (1, 2, 1)%positive
      = Returned
          (if 5000 - payment =? 0
           then (HTTP_200_message "Debt fully paid and deleted.",
                 delete (1, 2, 1)%positive {[ (1, 2, 1)%positive := 5000 ]})
           else (HTTP_200_debt 2%positive 1%positive (5000 - payment),
                 <[(1, 2, 1)%positive := 5000 - payment]>
                   {[ (1, 2, 1)%positive := 5000 ]})).
Proof.
  destruct (pay_debt_settlement [1%positive] {[ (1, 2, 1)%positive := 5000 ]}
              1%positive 2%positive 1%positive 1%positive (PyNumber "20") 5000
              (DFin 2000 (-2)))
    as (payment & H1 & H2 & H3 & _).
  - apply list_elem_of_singleton. reflexivity.
  - reflexivity.
  - right. reflexivity.
  - reflexivity.
  - exists payment. repeat split; try apply H2; assumption.
Defined.

(** * The split allocator *)

(** ** Rounding arithmetic *)

Lemma pow10_pos (k : Z) : 0 ≤ k → 0 < 10 ^ k.
Proof. intros. apply Z.pow_pos_nonneg; lia. Qed.




Lemma pow10_lt (a b : Z) : 0 ≤ a < b → 10 ^ a < 10 ^ b.
Proof. intros. apply Z.pow_lt_mono_r; lia. Qed.

























(** ** [create_receipt_item_and_splits] with the EVENLY policy *)

Lemma mapM_returned {A B} (f : A → outcome B) (h : A → B) (l : list A) :
  (∀ x, f x = Returned (h x)) → mapM f l = Returned (map h l).
Proof.
  intros Hf. induction l as [|x l IH]; [done|].
  cbn [mapM map]. rewrite Hf, IH. done.
Qed.

(** One split per roster member, the payer included, all with the same
    amount. *)
Lemma create_evenly_shape (price share amount : Decimal)
    (members : list MemberId) (payer : MemberId) (split_user : option MemberId) :
  payer ∈ members →
  truediv price (Z.of_nat (length members)) = Returned share →
  quantize share (DFin 1 (-2)) default_rounding = Returned amount →
  create_receipt_item_and_splits (mkItem price EVENLY (Some payer) split_user) members
  = Returned (map (λ m, mkFields m amount payer) members).
Proof.
  intros Hin Hdiv Hq. unfold create_receipt_item_and_splits, get_member_or_404.
  cbn [paid_by_id split_method actual_price].
  rewrite decide_True by done. cbn [mbind outcome_bind].
  destruct members as [|m0 l]; [by apply elem_of_nil in Hin|].
  rewrite (proj2 (Z.eqb_neq _ 0)) by (cbn [length]; lia).
  rewrite Hdiv. cbn [mbind outcome_bind].
  apply mapM_returned. intros m. by rewrite Hq.
Qed.




(** C9.  A group of exactly the three members A, B, C, an empty ledger and
    one item of 30.00 paid by A and split EVENLY: the allocator creates the
    splits (A owes A, 10.00), (B owes A, 10.00), (C owes A, 10.00), and
    folding them leaves exactly the rows (B owes A, 10.00) and
    (C owes A, 10.00), in whatever order the roster is listed. *)
Theorem evenly_end_to_end (g : GroupId) (A B C : MemberId)
    (roster : list MemberId) :
  A ≠ B → A ≠ C → B ≠ C →
  roster ≡ₚ [A; B; C] →
  ∃ rows,
    create_receipt_item_and_splits
      (mkItem (DFin 3000 (-2)) EVENLY (Some A) None) roster
    = Returned (map (λ m, mkFields m (DFin 1000 (-2)) A) roster)
    ∧ mapM saved_split (map (λ m, mkFields m (DFin 1000 (-2)) A) roster) = Some rows
    ∧ rows ≡ₚ [mkSplit A A 1000; mkSplit B A 1000; mkSplit C A 1000]
    ∧ update_debts rows g ∅ = {[ (g, B, A) := 1000; (g, C, A) := 1000 ]}.
Proof.
  intros HAB HAC HBC Hperm.
  exists (map (λ m, mkSplit m A 1000) roster).
  assert (length roster = 3%nat) as Hlen by (by rewrite Hperm).
  split; [|split; [|split]].
  - apply (create_evenly_shape _ (DFin 1000 (-2))).
    + rewrite Hperm. left.
    + rewrite Hlen. by vm_compute.
    + by vm_compute.
  - clear. induction roster as [|m l IH]; [done|].
    cbn [map mapM]. rewrite IH. done.
  - change [mkSplit A A 1000; mkSplit B A 1000; mkSplit C A 1000]
      with (map (λ m, mkSplit m A 1000) [A; B; C]).
    by apply fmap_Permutation.
  - rewrite (update_debts_perm_pos _ (map (λ m, mkSplit m A 1000) [A; B; C])).
    + unfold update_debts. cbn [map foldl].
      rewrite (step_self g ∅ (mkSplit A A 1000) eq_refl).
      rewrite (step_fresh g ∅ (mkSplit B A 1000));
        cbn [group_member paid_by amount];
        [|done|apply lookup_empty|apply lookup_empty].
      rewrite (step_fresh g _ (mkSplit C A 1000));
        cbn [group_member paid_by amount]; [|done| |].
      * apply insert_insert_ne. intros E. inversion E. done.
      * rewrite lookup_insert_ne; [apply lookup_empty|].
        intros E. inversion E. done.
      * rewrite lookup_insert_ne; [apply lookup_empty|].
        intros E. inversion E. done.
    + apply ledger_inv_empty.
    + apply Forall_forall. intros s Hs.
      apply list_elem_of_fmap in Hs as (m & -> & _). done.
    + by apply fmap_Permutation.
Qed.

Lemma evenly_end_to_end_witness :
  ∃ rows,
    create_receipt_item_and_splits
      (mkItem (DFin 3000 (-2)) EVENLY (Some 1%positive) None) [1; 2; 3]%positive
    = Returned (map (λ m, mkFields m (DFin 1000 (-2)) 1%positive) [1; 2; 3]%positive)
    ∧ update_debts rows 7 ∅
      = {[ (7, 2, 1)%positive := 1000; (7, 3, 1)%positive := 1000 ]}.
Proof.
  destruct (evenly_end_to_end 7%positive 1%positive 2%positive 3%positive
              [1; 2; 3]%positive)
    as (rows & H1 & _ & _ & H2).
  - discriminate.
  - discriminate.
  - discriminate.
  - reflexivity.
  - exists rows. split; assumption.
Defined.

(** * Further properties of the ledger fold *)

(** X1.  A batch of strictly positive obligations keeps the single-edge
    invariant: no pair is linked in both directions and every row stays
    strictly positive. *)
Theorem positive_batch_keeps_invariant (splits : list ReceiptItemSplit)
    (g : GroupId) (db : Ledger) :
  Forall (λ s, 0 < amount s) splits → ledger_inv db →
  ledger_inv (update_debts splits g db).
Proof. apply update_debts_inv_pos. Qed.

Lemma positive_batch_keeps_invariant_witness :
  ledger_inv (update_debts [mkSplit 2 1 1000; mkSplit 1 2 400] 1 ∅).
Proof.
  apply positive_batch_keeps_invariant.
  - repeat constructor.
  - apply ledger_inv_empty.
Defined.

(** X2.  With strictly positive amounts, and from a ledger satisfying the
    invariant, the table left by a batch does not depend on the order in
    which its obligations are folded. *)
Theorem positive_batch_order_irrelevant (l1 l2 : list ReceiptItemSplit)
    (g : GroupId) (db : Ledger) :
  ledger_inv db → Forall (λ s, 0 < amount s) l1 → l1 ≡ₚ l2 →
  update_debts l1 g db = update_debts l2 g db.
Proof. apply update_debts_perm_pos. Qed.

Lemma positive_batch_order_irrelevant_witness :
  update_debts [mkSplit 2 1 1000; mkSplit 1 2 400] 1 ∅
  = update_debts [mkSplit 1 2 400; mkSplit 2 1 1000] 1 ∅.
Proof.
  apply positive_batch_order_irrelevant.
  - apply ledger_inv_empty.
  - repeat constructor.
  - apply perm_swap.
Defined.

(** X3.  From any ledger and for any amounts, zero and negative included, a
    batch moves the signed balance of every ordered pair by exactly the
    signed sum of the batch's obligations for that pair. *)
Theorem batch_moves_net_balance (splits : list ReceiptItemSplit) (g : GroupId)
    (db : Ledger) (a b : MemberId) :
  net (update_debts splits g db) g a b = net db g a b + folded_signed splits a b.
Proof. apply update_debts_net. Qed.

Lemma split_signed_reverse (x y d c : MemberId) (a : Z) :
  split_signed x y (mkSplit d c a) + split_signed x y (mkSplit c d a) = 0.
Proof.
  unfold split_signed. cbn [group_member paid_by amount].
  repeat case_decide; try lia; exfalso; naive_solver.
Qed.

(** X4.  On a ledger satisfying the invariant, folding an obligation and then
    the opposite obligation of the same strictly positive amount gives back
    the ledger as it was. *)
Theorem fold_then_reverse_restores (g : GroupId) (db : Ledger)
    (d c : MemberId) (a : Z) :
  ledger_inv db → 0 < a →
  update_debts [mkSplit d c a; mkSplit c d a] g db = db.
Proof.
  intros Hinv Ha. apply map_eq. intros [[g' x] y].
  destruct (decide (g' = g)) as [->|Hg].
  - rewrite (inv_lookup_net g (update_debts _ g db)).
    + rewrite (inv_lookup_net g db) by done.
      rewrite update_debts_net. cbn [folded_signed foldr].
      pose proof (split_signed_reverse x y d c a). 
      replace (net db g x y + (split_signed x y (mkSplit d c a)
                 + (split_signed x y (mkSplit c d a) + 0)))
        with (net db g x y) by lia.
      done.
    + apply update_debts_inv_pos; [|done]. by repeat constructor.
  - by rewrite batch_frame by (by left).
Qed.

Lemma fold_then_reverse_restores_witness :
  update_debts [mkSplit 2 1 700; mkSplit 1 2 700] 1 {[ (1, 1, 2)%positive := 300 ]}
  = {[ (1, 1, 2)%positive := 300 ]}.
Proof.
  apply fold_then_reverse_restores; [|reflexivity].
  split.
  - intros k x. rewrite lookup_singleton. case_decide; [|discriminate].
    intros E. injection E as <-. reflexivity.
  - intros g x y. rewrite !lookup_singleton.
    repeat case_decide; simplify_eq; intros [? ?] [? ?]; discriminate.
Defined.

(** X5.  A batch never creates a row from a member to themselves, whatever
    the obligations, and never touches a row of another group. *)
Theorem batch_never_touches_self_or_foreign_rows (splits : list ReceiptItemSplit)
    (g : GroupId) (db : Ledger) (g' : GroupId) (a b : MemberId) :
  g' ≠ g ∨ a = b →
  update_debts splits g db !! (g', a, b) = db !! (g', a, b).
Proof. apply batch_frame. Qed.

Lemma batch_never_touches_self_or_foreign_rows_witness :
  update_debts [mkSplit 1 1 500; mkSplit 2 1 700] 1 ∅ !! (1, 1, 1)%positive
  = (∅ : gmap (positive * positive * positive) Z) !! (1, 1, 1)%positive.
Proof.
  apply batch_never_touches_self_or_foreign_rows. right. reflexivity.
Defined.

(** * Further properties of settlement *)

Lemma half_up_spec (m p : Z) :
  0 < p →
  let z := round_magnitude ROUND_HALF_UP m p in
  - p < 2 * (p * z - m) ≤ p.
Proof.
  intros Hp. cbn zeta. unfold round_magnitude.
  pose proof (Z.div_mod m p ltac:(lia)) as Hdm.
  pose proof (Z.mod_pos_bound m p Hp) as Hr.
  set (q := m / p) in *. set (r := m mod p) in *. clearbody q r.
  destruct (2 * r >=? p) eqn:E.
  - rewrite Z.geb_leb, Z.leb_le in E. nia.
  - rewrite Z.geb_leb, Z.leb_gt in E. nia.
Qed.

Lemma half_up_nonneg (m p : Z) :
  0 ≤ m → 0 < p → 0 ≤ round_magnitude ROUND_HALF_UP m p.
Proof. intros Hm Hp. pose proof (half_up_spec m p Hp) as H. cbn zeta in H. nia. Qed.

(** X6.  An accepted payment is the amount of the request rounded to the
    nearest cent, an exact half cent going up: the text's value [c * 10 ^ e]
    is positive, is kept as it is when it has at most two decimals, and is
    otherwise within half a cent of the accepted amount. *)
Theorem accepted_payment_is_half_up (v : PyValue) (edge : Z) (q : Decimal) :
  validate_payment_amount v (DFin edge (-2)) = Returned (ok_amount q) →
  ∃ c e p,
    Decimal_of_str (py_str v) = Returned (DFin c e)
    ∧ q = DFin p (-2) ∧ 0 < c ∧ 0 < p ≤ edge
    ∧ (-2 ≤ e → p = c * 10 ^ (e + 2))
    ∧ (e < -2 → - 10 ^ (-2 - e) < 2 * (10 ^ (-2 - e) * p - c) ≤ 10 ^ (-2 - e)).
Proof.
  intros H.
  destruct (validate_payment_amount_ok _ _ _ H) as (c & e & p & Hparse & Hp & -> & Hpos & Hle).
  exists c, e, p. split; [done|]. split; [done|].
  assert (0 < c) as Hc.
  { destruct (Z_lt_le_dec 0 c) as [|Hc]; [done|]. exfalso.
    revert Hp. unfold rescale.
    destruct (c =? 0) eqn:E0; [lia|]. apply Z.eqb_neq in E0.
    destruct (-2 <=? e) eqn:E1.
    - apply Z.leb_le in E1.
      pose proof (pow10_pos (e - -2) ltac:(lia)). nia.
    - apply Z.leb_gt in E1.
      pose proof (pow10_pos (-2 - e) ltac:(lia)) as HK.
      pose proof (half_up_nonneg (Z.abs c) (10 ^ (-2 - e)) ltac:(lia) HK).
      rewrite Z.sgn_neg by lia. lia. }
  split; [done|]. split; [lia|].
  revert Hp. unfold rescale.
  rewrite (proj2 (Z.eqb_neq c 0)) by lia.
  destruct (-2 <=? e) eqn:E1.
  - apply Z.leb_le in E1. intros ->. split; [|lia].
    intros _. replace (e - -2) with (e + 2) by lia. done.
  - apply Z.leb_gt in E1. intros ->. split; [lia|]. intros _.
    rewrite Z.sgn_pos, Z.abs_eq, Z.mul_1_l by lia.
    apply half_up_spec. apply pow10_pos. lia.
Qed.

Lemma accepted_payment_is_half_up_witness :
  ∃ c e p,
    Decimal_of_str (py_str (PyStr "1.235")) = Returned (DFin c e)
    ∧ DFin 124 (-2) = DFin p (-2) ∧ 0 < c ∧ 0 < p ≤ 5000
    ∧ (-2 ≤ e → p = c * 10 ^ (e + 2))
    ∧ (e < -2 → - 10 ^ (-2 - e) < 2 * (10 ^ (-2 - e) * p - c) ≤ 10 ^ (-2 - e)).
Proof.
  apply (accepted_payment_is_half_up (PyStr "1.235") 5000 (DFin 124 (-2))).
  reflexivity.
Defined.

(** X7.  Whatever the request, a payment never changes a row other than the
    debt it addresses, and unless the answer is a 200 it changes nothing at
    all: unknown group, non-member, stranger to the debt and rejected amount
    all leave the table as it was. *)
Theorem pay_debt_touches_only_its_row (groups : list GroupId) (db db' : Ledger)
    (user_member : option MemberId) (amount : PyValue) (group_id : GroupId)
    (debt_id : positive * positive * positive) (resp : Response) :
  PayDebtView_post groups db user_member amount group_id debt_id
    = Returned (resp, db') →
  (∀ k, k ≠ debt_id → db' !! k = db !! k)
  ∧ (is_success resp = false → db' = db).
Proof.
  unfold PayDebtView_post.
  destruct (negb (bool_decide (group_id ∈ groups))); [by intros [= <- <-]|].
  destruct user_member as [um|]; [|by intros [= <- <-]].
  destruct debt_id as [[dg d] c].
  destruct (if decide (dg = group_id) then db !! (dg, d, c) else None)
    as [edge|]; [|by intros [= <- <-]].
  destruct (negb (bool_decide (um = d ∨ um = c))); [by intros [= <- <-]|].
  destruct (validate_payment_amount amount (DFin edge (-2))) as [[q|msg]|ex];
    cbn [mbind outcome_bind]; [|by intros [= <- <-]|discriminate].
  destruct (cents q) as [p|]; [|discriminate].
  destruct (edge - p <=? 0); intros [= <- <-]; cbn [is_success].
  - split; [|discriminate]. intros k Hk. by rewrite lookup_delete_ne.
  - split; [|discriminate]. intros k Hk. by rewrite lookup_insert_ne.
Qed.

Lemma pay_debt_touches_only_its_row_witness :
  (∀ k, k ≠ (1, 2, 1)%positive →
        ({[ (1, 2, 1)%positive := 5000; (1, 3, 1)%positive := 700 ]}
           : gmap (positive * positive * positive) Z) !! k
        = ({[ (1, 2, 1)%positive := 5000; (1, 3, 1)%positive := 700 ]}
           : gmap (positive * positive * positive) Z) !! k)
  ∧ (is_success (HTTP_400 "Payment amount cannot exceed the debt amount.") = false →
     ({[ (1, 2, 1)%positive := 5000; (1, 3, 1)%positive := 700 ]}
        : gmap (positive * positive * positive) Z)
     = {[ (1, 2, 1)%positive := 5000; (1, 3, 1)%positive := 700 ]}).
Proof.
  apply (pay_debt_touches_only_its_row [1%positive] _ _ (Some 2%positive)
           (PyStr "50.01") 1%positive (1, 2, 1)%positive).
  reflexivity.
Defined.

(** X8.  Settlement keeps the single-edge invariant: after any answered
    payment the table still has strictly positive rows only and no pair
    linked in both directions. *)
Theorem pay_debt_keeps_invariant (groups : list GroupId) (db db' : Ledger)
    (user_member : option MemberId) (amount : PyValue) (group_id : GroupId)
    (debt_id : positive * positive * positive) (resp : Response) :
  ledger_inv db →
  PayDebtView_post groups db user_member amount group_id debt_id
    = Returned (resp, db') →
  ledger_inv db'.
Proof.
  intros [Hp Hs]. unfold PayDebtView_post.
  destruct (negb (bool_decide (group_id ∈ groups))); [by intros [= <- <-]|].
  destruct user_member as [um|]; [|by intros [= <- <-]].
  destruct debt_id as [[dg d] c].
  destruct (decide (dg = group_id)) as [->|]; [|by intros [= <- <-]].
  destruct (db !! (group_id, d, c)) as [edge|] eqn:Hedge; [|by intros [= <- <-]].
  destruct (negb (bool_decide (um = d ∨ um = c))); [by intros [= <- <-]|].
  destruct (validate_payment_amount amount (DFin edge (-2))) as [[q|msg]|ex];
    cbn [mbind outcome_bind]; [|by intros [= <- <-]|discriminate].
  destruct (cents q) as [p|]; [|discriminate].
  destruct (edge - p <=? 0) eqn:E; intros [= <- <-].
  - inv_after Hp Hs.
  - apply Z.leb_gt in E. inv_after Hp Hs.
Qed.

Lemma pay_debt_keeps_invariant_witness :
  ledger_inv {[ (1, 2, 1)%positive := 3000 ]}.
Proof.
  apply (pay_debt_keeps_invariant [1%positive] {[ (1, 2, 1)%positive := 5000 ]} _
           (Some 2%positive) (PyStr "20") 1%positive (1, 2, 1)%positive
           (HTTP_200_debt 2%positive 1%positive 3000)).
  - split.
    + intros k x. rewrite lookup_singleton. case_decide; [|discriminate].
      intros E. injection E as <-. reflexivity.
    + intros g x y. rewrite !lookup_singleton.
      repeat case_decide; simplify_eq; intros [? ?] [? ?]; discriminate.
  - reflexivity.
Defined.

(** * Further properties of the split allocator *)

Lemma mapM_outcome_inv {A B} (f : A → outcome B) (l : list A) (k : list B) :
  mapM f l = Returned k → Forall2 (λ x y, f x = Returned y) l k.
Proof.
  revert k. induction l as [|x l IH]; intros k; cbn [mapM].
  - intros [= <-]. constructor.
  - destruct (f x) as [y|ex] eqn:Hx; cbn [mbind outcome_bind]; [|discriminate].
    destruct (mapM f l) as [k'|ex]; cbn [mbind outcome_bind]; [|discriminate].
    intros [= <-]. constructor; [done|by apply IH].
Qed.

Lemma Forall2_in_r {A B} (R : A → B → Prop) (l : list A) (k : list B) (y : B) :
  Forall2 R l k → y ∈ k → ∃ x, x ∈ l ∧ R x y.
Proof.
  induction 1 as [|x y' l k Hxy _ IH]; intros Hy.
  - by apply elem_of_nil in Hy.
  - apply elem_of_cons in Hy as [->|Hy].
    + exists x. split; [left|done].
    + destruct (IH Hy) as (x' & Hin & HR). exists x'. split; [by right|done].
Qed.





(** X9.  Every split the allocator creates is charged to a member of the
    roster and credited to the payer named by the item, who is a member of
    the roster too, whatever the policy. *)
Theorem created_splits_reference_members (item_data : ItemData)
    (group_members : list MemberId) (created : list SplitFields) :
  create_receipt_item_and_splits item_data group_members = Returned created →
  ∃ payer, paid_by_id item_data = Some payer ∧ payer ∈ group_members
    ∧ Forall (λ f, new_group_member f ∈ group_members ∧ new_paid_by f = payer)
             created.
Proof.
  unfold create_receipt_item_and_splits, get_member_or_404.
  destruct (paid_by_id item_data) as [payer|]; [|discriminate].
  destruct (decide (payer ∈ group_members)) as [Hin|]; [|discriminate].
  cbn [mbind outcome_bind]. intros H. exists payer. split; [done|]. split; [done|].
  destruct (split_method item_data).
  - destruct (Z.of_nat (length group_members) =? 0); [discriminate|].
    destruct (truediv _ _) as [share|]; cbn [mbind outcome_bind] in H;
      [|discriminate].
    apply mapM_outcome_inv in H.
    apply Forall_forall. intros f Hf.
    destruct (Forall2_in_r _ _ _ _ H Hf) as (m & Hm & Hfm).
    destruct (quantize share _ _); cbn [mbind outcome_bind] in Hfm;
      [|discriminate].
    injection Hfm as <-. by cbn.
  - destruct (split_user_id item_data) as [su|]; [|discriminate].
    destruct (decide (su ∈ group_members)); [|discriminate].
    cbn in H. injection H as <-. by repeat constructor.
  - cbn in H. injection H as <-. constructor.
Qed.

Lemma created_splits_reference_members_witness :
  ∃ payer, paid_by_id (mkItem (DFin 1250 (-2)) BY_USER (Some 1%positive) (Some 2%positive))
           = Some payer
    ∧ payer ∈ [1; 2; 3]%positive
    ∧ Forall (λ f, new_group_member f ∈ [1; 2; 3]%positive ∧ new_paid_by f = payer)
             [mkFields 2 (DFin 1250 (-2)) 1].
Proof.
  apply (created_splits_reference_members
           (mkItem (DFin 1250 (-2)) BY_USER (Some 1%positive) (Some 2%positive))
           [1; 2; 3]%positive [mkFields 2 (DFin 1250 (-2)) 1]).
  reflexivity.
Defined.










(** * [sort_debts] *)

Section StableSort.
Context {A : Type} (key : A → Z * Z).

Let lt (x y : A) : bool := key_lt (key x) (key y).
Let le (x y : A) : Prop := lt y x = false.

Lemma key_lt_false (k1 k2 : Z * Z) :
  key_lt k1 k2 = false ↔ k2.1 < k1.1 ∨ (k2.1 = k1.1 ∧ k2.2 ≤ k1.2).
Proof.
  unfold key_lt. destruct k1 as [a1 b1], k2 as [a2 b2]. cbn [fst snd].
  rewrite orb_false_iff, andb_false_iff, Z.ltb_ge, Z.eqb_neq, Z.ltb_ge. lia.
Qed.

Lemma key_lt_true (k1 k2 : Z * Z) :
  key_lt k1 k2 = true ↔ k1.1 < k2.1 ∨ (k1.1 = k2.1 ∧ k1.2 < k2.2).
Proof.
  unfold key_lt. destruct k1 as [a1 b1], k2 as [a2 b2]. cbn [fst snd].
  rewrite orb_true_iff, andb_true_iff, !Z.ltb_lt, Z.eqb_eq. lia.
Qed.

Lemma insert_by_perm (x : A) (l : list A) : insert_by lt x l ≡ₚ x :: l.
Proof.
  induction l as [|y l IH]; cbn [insert_by]; [done|].
  destruct (lt y x); [|done]. rewrite IH. apply perm_swap.
Qed.

Lemma stable_sort_perm (l : list A) : stable_sort lt l ≡ₚ l.
Proof.
  induction l as [|x l IH]; [done|].
  cbn [stable_sort foldr]. fold (stable_sort lt l).
  by rewrite insert_by_perm, IH.
Qed.

Lemma insert_by_sorted (x : A) (l : list A) :
  StronglySorted le l → StronglySorted le (insert_by lt x l).
Proof.
  induction 1 as [|y l Hs IH Hall]; cbn [insert_by].
  - repeat constructor.
  - destruct (lt y x) eqn:E.
    + constructor; [done|].
      rewrite insert_by_perm. constructor; [|done].
      unfold le, lt in *. apply key_lt_true in E. apply key_lt_false. lia.
    + constructor; [by constructor|]. constructor; [done|].
      eapply Forall_impl; [exact Hall|]. intros z Hz.
      unfold le, lt in *. apply key_lt_false in E, Hz. apply key_lt_false. lia.
Qed.

Lemma stable_sort_sorted (l : list A) : StronglySorted le (stable_sort lt l).
Proof.
  induction l as [|x l IH]; [constructor|].
  cbn [stable_sort foldr]. by apply insert_by_sorted.
Qed.

Lemma insert_by_filter (k : Z * Z) (x : A) (l : list A) :
  filter (λ y, key y = k) (insert_by lt x l) = filter (λ y, key y = k) (x :: l).
Proof.
  induction l as [|y l IH]; cbn [insert_by]; [done|].
  destruct (lt y x) eqn:E; [|done].
  rewrite filter_cons, IH, !filter_cons.
  destruct (decide (key y = k)) as [Hy|Hy]; [|done].
  destruct (decide (key x = k)) as [Hx|Hx]; [|done].
  unfold lt in E. rewrite Hy, Hx in E. apply key_lt_true in E. lia.
Qed.

Lemma stable_sort_filter (k : Z * Z) (l : list A) :
  filter (λ y, key y = k) (stable_sort lt l) = filter (λ y, key y = k) l.
Proof.
  induction l as [|x l IH]; [done|].
  cbn [stable_sort foldr]. fold (stable_sort lt l).
  by rewrite insert_by_filter, !filter_cons, IH.
Qed.

End StableSort.

Lemma StronglySorted_weaken {A} (R1 R2 : A → A → Prop) (l : list A) :
  (∀ x y, R1 x y → R2 x y) → StronglySorted R1 l → StronglySorted R2 l.
Proof.
  intros HR. induction 1 as [|x l Hs IH Hall]; constructor; [done|].
  eapply Forall_impl; [exact Hall|]. intros y. apply HR.
Qed.

(** X14.  [sort_debts] returns the debts it was given, each exactly as often,
    ordered so that every debt involving the user comes before every debt
    that does not, and, among debts of the same kind, larger amounts come
    before smaller ones. *)
Theorem sort_debts_sorted (debts : list Debt) (user_member : MemberId) :
  sort_debts debts user_member ≡ₚ debts
  ∧ StronglySorted (listed_before user_member) (sort_debts debts user_member).
Proof.
  split; [apply stable_sort_perm|].
  eapply StronglySorted_weaken;
    [|apply (stable_sort_sorted (sort_debts_key user_member))].
  intros d1 d2 H. apply key_lt_false in H.
  unfold sort_debts_key, listed_before in *. cbn [fst snd] in H.
  destruct (related_to user_member d1), (related_to user_member d2);
    split; intros; try done; lia.
Qed.

(** X15.  The sort is stable: debts with the same key (involving the user or
    not, and the same amount) keep the order in which they were given. *)
Theorem sort_debts_stable (debts : list Debt) (user_member : MemberId) (k : Z * Z) :
  filter (λ d, sort_debts_key user_member d = k) (sort_debts debts user_member)
  = filter (λ d, sort_debts_key user_member d = k) debts.
Proof. apply stable_sort_filter. Qed.

(** * Dates and the validators *)

(** X16.  [validate_year_and_month] never raises, and it accepts exactly when
    both arguments are integers (or texts of integers) with the month in
    1..12 and the year in 1900..9999; it then returns those integers. *)
Theorem validate_year_and_month_accepts (year month : IntArg) (y m : Z) :
  (∃ r, validate_year_and_month year month = Returned r)
  ∧ (validate_year_and_month year month = Returned (ym_ok y m)
     ↔ py_int year = Returned y ∧ py_int month = Returned m
       ∧ 1 ≤ m ≤ 12 ∧ 1900 ≤ y ≤ 9999).
Proof.
  unfold validate_year_and_month, try_except.
  assert (∀ x, (∃ n, py_int x = Returned n)
               ∨ ∃ msg, py_int x = Raised (ValueError msg)) as Hint.
  { intros [n|s]; cbn [py_int]; [eauto|]. destruct (parse_int _); eauto. }
  destruct (Hint year) as [[y' ->]|[msg ->]]; cbn [mbind outcome_bind].
  2: { split; [eauto|]. split; [discriminate|]. intros (H & _). discriminate. }
  destruct (Hint month) as [[m' ->]|[msg ->]]; cbn [mbind outcome_bind].
  2: { split; [eauto|]. split; [discriminate|]. intros (_ & H & _). discriminate. }
  destruct ((1 <=? m') && (m' <=? 12)) eqn:Em; cbn [negb].
  - apply andb_true_iff in Em as [Em1 Em2].
    apply Z.leb_le in Em1, Em2.
    destruct ((y' <? 1900) || (y' >? 9999)) eqn:Ey.
    + split; [eauto|]. split; [discriminate|].
      intros (H1 & H2 & Hm & Hy). injection H1 as ->. exfalso.
      apply orb_true_iff in Ey as [Ey|Ey].
      * apply Z.ltb_lt in Ey. lia.
      * rewrite Z.gtb_ltb in Ey. apply Z.ltb_lt in Ey. lia.
    + apply orb_false_iff in Ey as [Ey1 Ey2].
      apply Z.ltb_ge in Ey1. rewrite Z.gtb_ltb in Ey2. apply Z.ltb_ge in Ey2.
      split; [eauto|]. split.
      * intros [= <- <-]. repeat split; lia.
      * intros (H1 & H2 & _). injection H1 as ->. injection H2 as ->. done.
  - split; [eauto|]. split; [discriminate|].
    intros (H1 & H2 & Hm & Hy). injection H2 as ->. exfalso.
    apply andb_false_iff in Em as [Em|Em]; apply Z.leb_gt in Em; lia.
Qed.

Lemma days_in_month_bounds (year month : Z) : 28 ≤ days_in_month year month ≤ 31.
Proof.
  unfold days_in_month.
  destruct (month =? 2); [destruct (is_leap year); lia|].
  destruct ((month =? 4) || (month =? 6) || (month =? 9) || (month =? 11)); lia.
Qed.

Lemma make_date_ok (year month day : Z) :
  1 ≤ year ≤ 9999 → 1 ≤ month ≤ 12 → 1 ≤ day ≤ days_in_month year month →
  make_date year month day = Returned (ymd2ord year month day).
Proof.
  intros Hy Hm Hd. unfold make_date, MINYEAR, MAXYEAR.
  rewrite !(proj2 (Z.leb_le _ _)) by lia. done.
Qed.

Lemma make_date_inv (year month day d : Z) :
  make_date year month day = Returned d →
  1 ≤ year ≤ 9999 ∧ 1 ≤ month ≤ 12 ∧ 1 ≤ day ≤ days_in_month year month
  ∧ d = ymd2ord year month day.
Proof.
  unfold make_date, MINYEAR, MAXYEAR.
  destruct ((1 <=? year) && (year <=? 9999)) eqn:E1; [|discriminate].
  destruct ((1 <=? month) && (month <=? 12)) eqn:E2; [|discriminate].
  destruct ((1 <=? day) && (day <=? days_in_month year month)) eqn:E3;
    [|discriminate].
  cbn [negb]. intros [= <-].
  apply andb_true_iff in E1 as [? ?], E2 as [? ?], E3 as [? ?].
  repeat split; try apply Z.leb_le; done.
Qed.


Lemma py_int_cases (x : IntArg) :
  (∃ n, py_int x = Returned n) ∨ ∃ msg, py_int x = Raised (ValueError msg).
Proof.
  destruct x as [n|s]; cbn [py_int]; [eauto|]. destruct (parse_int _); eauto.
Qed.


Lemma days_before_month_aux_mono (year : Z) (k j : nat) :
  (k ≤ j)%nat → days_before_month_aux year k ≤ days_before_month_aux year j.
Proof.
  induction 1 as [|j Hle IH]; [lia|].
  cbn [days_before_month_aux].
  pose proof (days_in_month_bounds year (Z.of_nat (S j))). lia.
Qed.

Lemma days_before_month_next (year month : Z) :
  1 ≤ month →
  days_before_month year (month + 1)
  = days_before_month year month + days_in_month year month.
Proof.
  intros Hm. unfold days_before_month.
  replace (Z.to_nat (month + 1 - 1)) with (S (Z.to_nat (month - 1))) by lia.
  cbn [days_before_month_aux]. do 2 f_equal. lia.
Qed.

Lemma days_before_month_mono (year m1 m2 : Z) :
  m1 ≤ m2 → days_before_month year m1 ≤ days_before_month year m2.
Proof.
  intros H. apply days_before_month_aux_mono. lia.
Qed.

Lemma days_before_month_nonneg (year month : Z) : 0 ≤ days_before_month year month.
Proof.
  unfold days_before_month.
  apply (days_before_month_aux_mono year 0 _). lia.
Qed.

(** A year has 365 days, 366 when leap. *)
Lemma days_before_month_13 (year : Z) :
  days_before_month year 13 = 365 + (if is_leap year then 1 else 0).
Proof.
  unfold days_before_month. change (Z.to_nat (13 - 1)) with 12%nat.
  cbn [days_before_month_aux]. unfold days_in_month.
  repeat match goal with
         | |- context [Z.of_nat ?n] =>
             let v := eval vm_compute in (Z.of_nat n) in
             change (Z.of_nat n) with v
         end.
  repeat match goal with
         | |- context [?a =? ?b] =>
             let v := eval vm_compute in (a =? b) in
             change (a =? b) with v
         end.
  cbn [orb]. destruct (is_leap year); lia.
Qed.

Lemma days_before_year_next (year : Z) :
  days_before_year (year + 1)
  = days_before_year year + 365 + (if is_leap year then 1 else 0).
Proof.
  unfold days_before_year, is_leap.
  replace (year + 1 - 1) with year by lia.
  destruct (year mod 4 =? 0) eqn:E4; destruct (year mod 100 =? 0) eqn:E100;
    destruct (year mod 400 =? 0) eqn:E400; cbn [negb andb orb];
    rewrite ?Z.eqb_eq, ?Z.eqb_neq in *; Z.div_mod_to_equations; lia.
Qed.

Lemma days_before_year_mono (y1 y2 : Z) :
  y1 ≤ y2 → days_before_year y1 ≤ days_before_year y2.
Proof. unfold days_before_year. intros H. Z.div_mod_to_equations. lia. Qed.

(** The first day of a month and the first day of the month after it. *)
Lemma month_end_next (year month : Z) :
  1 ≤ month ≤ 12 →
  ymd2ord year month (days_in_month year month) + 1
  = if month =? 12 then ymd2ord (year + 1) 1 1 else ymd2ord year (month + 1) 1.
Proof.
  intros Hm. unfold ymd2ord.
  destruct (month =? 12) eqn:E.
  - apply Z.eqb_eq in E. subst month.
    rewrite days_before_year_next.
    pose proof (days_before_month_next year 12 ltac:(lia)) as H.
    change (12 + 1) with 13 in H. rewrite days_before_month_13 in H.
    change (days_before_month (year + 1) 1) with 0. lia.
  - rewrite days_before_month_next by lia. lia.
Qed.

(** Ordinals follow the calendar order of (year, month). *)
Lemma ymd2ord_month_order (y1 m1 d1 y2 m2 d2 : Z) :
  1 ≤ m1 ≤ 12 → 1 ≤ m2 ≤ 12 →
  1 ≤ d1 ≤ days_in_month y1 m1 → 1 ≤ d2 ≤ days_in_month y2 m2 →
  y1 < y2 ∨ (y1 = y2 ∧ m1 < m2) →
  ymd2ord y1 m1 d1 < ymd2ord y2 m2 d2.
Proof.
  intros Hm1 Hm2 Hd1 Hd2 Hlt. unfold ymd2ord.
  pose proof (days_before_month_nonneg y2 m2).
  destruct Hlt as [Hy|[-> Hm]].
  - pose proof (days_before_year_mono (y1 + 1) y2 ltac:(lia)) as Hmono.
    rewrite days_before_year_next in Hmono.
    pose proof (days_before_month_mono y1 (m1 + 1) 13 ltac:(lia)) as Hb.
    rewrite days_before_month_next, days_before_month_13 in Hb by lia.
    lia.
  - pose proof (days_before_month_mono y2 (m1 + 1) m2 ltac:(lia)) as Hb.
    rewrite days_before_month_next in Hb by lia. lia.
Qed.

Lemma ymd2ord_bounds (year month day : Z) :
  1 ≤ year ≤ 9999 → 1 ≤ month ≤ 12 → 1 ≤ day ≤ days_in_month year month →
  1 ≤ ymd2ord year month day ≤ max_ordinal
  ∧ (ymd2ord year month day = max_ordinal → year = 9999 ∧ month = 12 ∧ day = 31).
Proof.
  intros Hy Hm Hd.
  assert (ymd2ord 9999 12 31 = max_ordinal) as Hmax by (by vm_compute).
  assert (ymd2ord 1 1 1 = 1) as Hmin by (by vm_compute).
  pose proof (days_in_month_bounds year month) as Hdim.
  assert (1 ≤ ymd2ord year month day) as Hlo.
  { unfold ymd2ord. pose proof (days_before_month_nonneg year month).
    pose proof (days_before_year_mono 1 year ltac:(lia)) as H1.
    change (days_before_year 1) with 0 in H1. lia. }
  destruct (decide (year = 9999 ∧ month = 12)) as [[-> ->]|Hne].
  - change (days_in_month 9999 12) with 31 in Hd.
    unfold ymd2ord in *. split; [lia|]. intros. lia.
  - assert (ymd2ord year month day < ymd2ord 9999 12 31); [|lia].
    apply ymd2ord_month_order; try done; try lia.
Qed.

(** X18.  For a year in 1..9999 and a month in 1..12,
    [get_date_range_for_month] returns the first and the last day of that
    month: the range has as many days as the month (28 to 31), and a
    calendar date lies in it exactly when it is a date of that year and
    month. *)
Theorem get_date_range_for_month_covers_month (year month : Z) :
  1 ≤ year ≤ 9999 → 1 ≤ month ≤ 12 →
  ∃ start_date end_date,
    get_date_range_for_month year month = Returned (start_date, end_date)
    ∧ end_date = start_date + days_in_month year month - 1
    ∧ 28 ≤ days_in_month year month ≤ 31
    ∧ 1 ≤ start_date ∧ end_date ≤ max_ordinal
    ∧ ∀ y m d day,
        make_date y m d = Returned day →
        (start_date ≤ day ≤ end_date ↔ y = year ∧ m = month).
Proof.
  intros Hy Hm.
  pose proof (days_in_month_bounds year month) as Hdim.
  exists (ymd2ord year month 1), (ymd2ord year month (days_in_month year month)).
  unfold get_date_range_for_month.
  rewrite !make_date_ok by lia. cbn [mbind outcome_bind].
  split; [done|]. split; [unfold ymd2ord; lia|]. split; [done|].
  destruct (ymd2ord_bounds year month 1) as [[H1 _] _]; try lia.
  destruct (ymd2ord_bounds year month (days_in_month year month)) as [[_ H2] _];
    try lia.
  split; [done|]. split; [done|].
  intros y m d day Hmk.
  apply make_date_inv in Hmk as (Hy' & Hm' & Hd' & ->).
  split.
  - intros [Hlo Hhi].
    destruct (decide (y = year)) as [->|Hyne].
    + split; [done|].
      destruct (Z.lt_trichotomy m month) as [Hlt|[->|Hgt]]; [|done|].
      * exfalso.
        pose proof (ymd2ord_month_order year m d year month 1). lia.
      * exfalso.
        pose proof (ymd2ord_month_order year month (days_in_month year month)
                      year m d). lia.
    + exfalso. destruct (Z.lt_trichotomy y year) as [Hlt|[->|Hgt]]; [|done|].
      * pose proof (ymd2ord_month_order y m d year month 1). lia.
      * pose proof (ymd2ord_month_order year month (days_in_month year month)
                      y m d). lia.
  - intros [-> ->]. unfold ymd2ord. lia.
Qed.

Lemma get_date_range_for_month_covers_month_witness :
  ∃ start_date end_date,
    get_date_range_for_month 2024 2 = Returned (start_date, end_date)
    ∧ end_date = start_date + days_in_month 2024 2 - 1.
Proof.
  destruct (get_date_range_for_month_covers_month 2024 2) as (s & e & H1 & H2 & _).
  - lia.
  - lia.
  - exists s, e. split; assumption.
Defined.

(** * The expense sums *)

Lemma sumZ_cons (x : Z) (l : list Z) : sumZ (x :: l) = x + sumZ l.
Proof. done. Qed.

Lemma or_zero_aggregate_sum (rows : list SplitRow) :
  or_zero (aggregate_sum rows) = sumZ (map row_amount rows).
Proof.
  destruct rows as [|r l]; [done|].
  unfold aggregate_sum, or_zero.
  destruct (sumZ _ =? 0) eqn:E; [|done]. apply Z.eqb_eq in E. by rewrite E.
Qed.

Lemma sumZ_filter (p : SplitRow → bool) (rows : list SplitRow) :
  sumZ (map row_amount (List.filter p rows))
  = sumZ (map (λ r, if p r then row_amount r else 0) rows).
Proof.
  induction rows as [|r l IH]; [done|].
  cbn [List.filter map]. destruct (p r); cbn [map]; unfold sumZ in *;
    cbn [foldr]; rewrite IH; done.
Qed.

Lemma expense_on_sum (table : list SplitRow) (member : MemberId) (day : Z) :
  expense_on table member day
  = sumZ (map (λ r, if of_member member r && on_date day r
                    then row_amount r else 0) table).
Proof. unfold expense_on. by rewrite or_zero_aggregate_sum, sumZ_filter. Qed.

Lemma total_expense_sum (table : list SplitRow) (member : MemberId)
    (start_date end_date : Z) :
  calculate_total_expense_for_member table member start_date end_date
  = sumZ (map (λ r, if of_member member r && in_date_range start_date end_date r
                    then row_amount r else 0) table).
Proof.
  unfold calculate_total_expense_for_member.
  by rewrite or_zero_aggregate_sum, sumZ_filter.
Qed.

(** A row counts on exactly one day of a run of consecutive days that
    contains its purchase date, and on none otherwise. *)
Lemma row_over_days (member : MemberId) (r : SplitRow) (k : nat) (start : Z) :
  sumZ (map (λ day, if of_member member r && on_date day r
                    then row_amount r else 0) (seqZ start (Z.of_nat k)))
  = if of_member member r && in_date_range start (start + Z.of_nat k - 1) r
    then row_amount r else 0.
Proof.
  revert start. induction k as [|k IH]; intros start.
  - change (Z.of_nat 0) with 0. rewrite seqZ_nil by lia. cbn [map sumZ foldr].
    unfold in_date_range. destruct (row_purchase_date r) as [d|].
    + rewrite (proj2 (andb_false_iff (start <=? d) (d <=? start + 0 - 1))).
      * by rewrite andb_false_r.
      * destruct (start <=? d) eqn:E1; [right|by left].
        apply Z.leb_le in E1. apply Z.leb_gt. lia.
    + by rewrite andb_false_r.
  - rewrite seqZ_cons by lia. cbn [map sumZ foldr]. fold sumZ.
    replace (Z.pred (Z.of_nat (S k))) with (Z.of_nat k) by lia.
    rewrite IH. unfold in_date_range, on_date.
    destruct (of_member member r); cbn [andb]; [|done].
    destruct (row_purchase_date r) as [d|]; [|done].
    replace (Z.succ start + Z.of_nat k - 1) with (start + Z.of_nat (S k) - 1) by lia.
    destruct (d =? start) eqn:E1.
    + apply Z.eqb_eq in E1. subst d.
      rewrite (proj2 (Z.leb_gt _ _)) by lia. cbn [andb].
      rewrite !(proj2 (Z.leb_le _ _)) by lia. cbn [andb]. lia.
    + apply Z.eqb_neq in E1.
      destruct (Z.succ start <=? d) eqn:E2.
      * apply Z.leb_le in E2. rewrite (proj2 (Z.leb_le start d)) by lia.
        cbn [andb]. lia.
      * apply Z.leb_gt in E2. rewrite (proj2 (Z.leb_gt start d)) by lia.
        cbn [andb]. lia.
Qed.

(** The daily figures of a run of consecutive days add up to the total of
    the period. *)
Lemma days_add_up (table : list SplitRow) (member : MemberId) (start : Z) (k : nat) :
  sumZ (map (expense_on table member) (seqZ start (Z.of_nat k)))
  = calculate_total_expense_for_member table member start (start + Z.of_nat k - 1).
Proof.
  rewrite total_expense_sum.
  induction table as [|r t IH].
  - rewrite sumZ_map_zero; [done|]. intros d _. by rewrite expense_on_sum.
  - rewrite map_cons, sumZ_cons, <- IH, <- row_over_days, <- sumZ_map_add.
    f_equal. apply map_ext. intros day.
    rewrite !expense_on_sum. by rewrite map_cons, sumZ_cons.
Qed.

Lemma daily_loop_spec (table : list SplitRow) (member : MemberId) (end_date : Z)
    (fuel : nat) (current_date : Z) (expenses : list (Z * Z)) :
  1 ≤ current_date → end_date < max_ordinal →
  (Z.to_nat (end_date - current_date + 1) < fuel)%nat →
  daily_loop fuel table member current_date end_date expenses
  = in_range (expenses ++ map (λ d, (d, expense_on table member d))
                              (seqZ current_date (end_date - current_date + 1))).
Proof.
  intros Hlo Hhi. revert current_date expenses Hlo.
  induction fuel as [|f IH]; intros cur acc Hlo Hfuel; [lia|].
  cbn [daily_loop].
  destruct (cur <=? end_date) eqn:E.
  - apply Z.leb_le in E.
    unfold date_add. rewrite !(proj2 (Z.leb_le _ _)) by lia. cbn [andb].
    rewrite IH by lia.
    rewrite (seqZ_cons cur) by lia. cbn [map].
    rewrite <- app_assoc. cbn [app].
    replace (Z.succ cur) with (cur + 1) by lia.
    replace (Z.pred (end_date - cur + 1)) with (end_date - (cur + 1) + 1) by lia.
    done.
  - apply Z.leb_gt in E. rewrite seqZ_nil by lia. by rewrite app_nil_r.
Qed.

Lemma daily_loop_overflow (table : list SplitRow) (member : MemberId)
    (fuel : nat) (current_date : Z) (expenses : list (Z * Z)) :
  1 ≤ current_date ≤ max_ordinal →
  (Z.to_nat (max_ordinal - current_date + 1) < fuel)%nat →
  daily_loop fuel table member current_date max_ordinal expenses = OverflowError.
Proof.
  revert current_date expenses.
  induction fuel as [|f IH]; intros cur acc Hcur Hfuel; [lia|].
  cbn [daily_loop]. rewrite (proj2 (Z.leb_le _ _)) by lia.
  unfold date_add. destruct (decide (cur = max_ordinal)) as [->|Hne].
  - done.
  - rewrite !(proj2 (Z.leb_le _ _)) by lia. cbn [andb].
    apply IH; lia.
Qed.

(** X19.  For a period that ends before 9999-12-31,
    [calculate_daily_expenses] returns one entry per day from the start to
    the end, in order and none when the end precedes the start, and the
    daily figures add up to [calculate_total_expense_for_member] over the
    period. *)
Theorem calculate_daily_expenses_days (table : list SplitRow) (member : MemberId)
    (start_date end_date : Z) :
  1 ≤ start_date → end_date < max_ordinal →
  ∃ expenses,
    calculate_daily_expenses table member start_date end_date = in_range expenses
    ∧ map fst expenses = seqZ start_date (end_date - start_date + 1)
    ∧ Z.of_nat (length expenses) = Z.max 0 (end_date - start_date + 1)
    ∧ (∀ day total, (day, total) ∈ expenses →
                    total = expense_on table member day)
    ∧ (start_date ≤ end_date →
       sumZ (map snd expenses)
       = calculate_total_expense_for_member table member start_date end_date).
Proof.
  intros Hlo Hhi.
  exists (map (λ d, (d, expense_on table member d))
              (seqZ start_date (end_date - start_date + 1))).
  split; [|split; [|split; [|split]]].
  - unfold calculate_daily_expenses. rewrite daily_loop_spec by lia. done.
  - rewrite map_map. cbn [fst]. apply map_id.
  - rewrite length_map, length_seqZ. lia.
  - intros day total Hin. apply list_elem_of_fmap in Hin as (d & [= -> ->] & _).
    done.
  - intros Hle. rewrite map_map. cbn [snd].
    replace (end_date - start_date + 1)
      with (Z.of_nat (Z.to_nat (end_date - start_date + 1))) by lia.
    rewrite days_add_up. f_equal. lia.
Qed.

Lemma calculate_daily_expenses_days_witness :
  ∃ expenses,
    calculate_daily_expenses [mkRow 1 250 (Some 738000) 1 None] 1%positive
      738000 738002 = in_range expenses
    ∧ map fst expenses = seqZ 738000 (738002 - 738000 + 1).
Proof.
  destruct (calculate_daily_expenses_days [mkRow 1 250 (Some 738000) 1 None]
              1%positive 738000 738002) as (l & H1 & H2 & _).
  - lia.
  - reflexivity.
  - exists l. split; assumption.
Defined.

(** X20.  A period that is not empty and ends on 9999-12-31 makes
    [calculate_daily_expenses] raise [OverflowError]: after the last day the
    loop still moves [current_date] one day on, past the last date there
    is. *)
Theorem calculate_daily_expenses_overflow (table : list SplitRow)
    (member : MemberId) (start_date : Z) :
  1 ≤ start_date ≤ max_ordinal →
  calculate_daily_expenses table member start_date max_ordinal = OverflowError.
Proof.
  intros H. unfold calculate_daily_expenses. apply daily_loop_overflow; lia.
Qed.

Lemma calculate_daily_expenses_overflow_witness :
  calculate_daily_expenses [] 1%positive 3652029 max_ordinal = OverflowError.
Proof.
  apply calculate_daily_expenses_overflow. split; [lia|]. discriminate.
Defined.

(** X21.  The calendar of a month: for every year and month accepted by
    [validate_year_and_month], the daily expenses over
    [get_date_range_for_month] have exactly one entry per day of the month,
    from the first day on -- except for December 9999, where the
    computation raises [OverflowError]. *)
Theorem calendar_month_entries (table : list SplitRow) (member : MemberId)
    (year month : IntArg) (y m : Z) :
  validate_year_and_month year month = Returned (ym_ok y m) →
  ∃ start_date end_date,
    get_date_range_for_month y m = Returned (start_date, end_date)
    ∧ if decide (y = 9999 ∧ m = 12)
      then calculate_daily_expenses table member start_date end_date
           = OverflowError
      else ∃ expenses,
             calculate_daily_expenses table member start_date end_date
             = in_range expenses
             ∧ map fst expenses = seqZ start_date (days_in_month y m)
             ∧ Z.of_nat (length expenses) = days_in_month y m.
Proof.
  intros Hval.
  destruct (validate_year_and_month_accepts year month y m) as [_ [Hacc _]].
  destruct (Hacc Hval) as (_ & _ & Hm & Hy).
  pose proof (days_in_month_bounds y m) as Hdim.
  exists (ymd2ord y m 1), (ymd2ord y m (days_in_month y m)).
  split.
  { unfold get_date_range_for_month. by rewrite !make_date_ok by lia. }
  destruct (ymd2ord_bounds y m 1) as [[Hlo _] _]; try lia.
  destruct (ymd2ord_bounds y m (days_in_month y m)) as [[_ Hhi] Hmax]; try lia.
  destruct (decide (y = 9999 ∧ m = 12)) as [[-> ->]|Hne].
  - change (ymd2ord 9999 12 (days_in_month 9999 12)) with max_ordinal.
    apply calculate_daily_expenses_overflow. split; [done|].
    by vm_compute.
  - assert (ymd2ord y m (days_in_month y m) < max_ordinal) as Hlt.
    { destruct (decide (ymd2ord y m (days_in_month y m) = max_ordinal)) as [E|];
        [|lia]. destruct (Hmax E) as (-> & -> & _). exfalso. by apply Hne. }
    destruct (calculate_daily_expenses_days table member (ymd2ord y m 1)
                (ymd2ord y m (days_in_month y m)) Hlo Hlt)
      as (expenses & H1 & H2 & H3 & _).
    assert (ymd2ord y m (days_in_month y m) - ymd2ord y m 1 + 1
            = days_in_month y m) as Hlen by (unfold ymd2ord; lia).
    exists expenses. rewrite Hlen in *. split; [done|]. split; [done|]. lia.
Qed.

Lemma calendar_month_entries_witness :
  ∃ start_date end_date,
    get_date_range_for_month 2024 2 = Returned (start_date, end_date)
    ∧ if decide (2024 = 9999 ∧ 2 = 12)
      then calculate_daily_expenses [] 1%positive start_date end_date
           = OverflowError
      else ∃ expenses,
             calculate_daily_expenses [] 1%positive start_date end_date
             = in_range expenses
             ∧ map fst expenses = seqZ start_date (days_in_month 2024 2)
             ∧ Z.of_nat (length expenses) = days_in_month 2024 2.
Proof.
  apply (calendar_month_entries [] 1%positive (arg_str "2024") (arg_int 2)).
  reflexivity.
Defined.

(** X22.  For a date from 0001-01-07 on, [calculate_seven_day_expenses]
    returns exactly seven entries, for the six days before [today] and
    [today] itself in order, and the seven figures add up to
    [calculate_total_expense_for_member] over that week. *)
Theorem calculate_seven_day_expenses_week (table : list SplitRow)
    (member : MemberId) (today : Z) :
  7 ≤ today ≤ max_ordinal →
  ∃ expenses,
    calculate_seven_day_expenses table member today = in_range expenses
    ∧ map fst expenses = seqZ (today - 6) 7
    ∧ (∀ day total, (day, total) ∈ expenses →
                    total = expense_on table member day)
    ∧ sumZ (map snd expenses)
      = calculate_total_expense_for_member table member (today - 6) today.
Proof.
  intros Htoday.
  exists (map (λ d, (d, expense_on table member d)) (seqZ (today - 6) 7)).
  split; [|split; [|split]].
  - unfold calculate_seven_day_expenses, date_add.
    rewrite !(proj2 (Z.leb_le _ _)) by lia. cbn [andb].
    replace (today + -6) with (today - 6) by lia.
    cbn [seven_day_loop]. unfold date_add.
    repeat (rewrite !(proj2 (Z.leb_le _ _)) by lia; cbn [andb]).
    rewrite !(seqZ_cons _ _) by lia. 
    repeat (rewrite seqZ_cons by (cbn; lia)). rewrite seqZ_nil by (cbn; lia).
    cbn [map]. repeat f_equal; lia.
  - rewrite map_map. cbn [fst]. apply map_id.
  - intros day total Hin. apply list_elem_of_fmap in Hin as (d & [= -> ->] & _).
    done.
  - rewrite map_map. cbn [snd].
    change 7 with (Z.of_nat 7). rewrite days_add_up. f_equal. lia.
Qed.

Lemma calculate_seven_day_expenses_week_witness :
  ∃ expenses,
    calculate_seven_day_expenses [mkRow 1 250 (Some 738000) 1 None] 1%positive
      738003 = in_range expenses
    ∧ map fst expenses = seqZ (738003 - 6) 7.
Proof.
  destruct (calculate_seven_day_expenses_week [mkRow 1 250 (Some 738000) 1 None]
              1%positive 738003) as (l & H1 & H2 & _).
  - split; [lia|]. discriminate.
  - exists l. split; assumption.
Defined.

(** * Group and category expenses *)

Lemma insert_by_ext {A} (lt1 lt2 : A → A → bool) (x : A) (l : list A) :
  (∀ a b, lt1 a b = lt2 a b) → insert_by lt1 x l = insert_by lt2 x l.
Proof.
  intros H. induction l as [|y l IH]; [done|].
  cbn [insert_by]. by rewrite H, IH.
Qed.

Lemma stable_sort_ext {A} (lt1 lt2 : A → A → bool) (l : list A) :
  (∀ a b, lt1 a b = lt2 a b) → stable_sort lt1 l = stable_sort lt2 l.
Proof.
  intros H. induction l as [|x l IH]; [done|].
  cbn [stable_sort foldr]. fold (stable_sort lt1 l) (stable_sort lt2 l).
  by rewrite IH, (insert_by_ext lt1 lt2).
Qed.

Lemma sumZ_map_perm {A} (f : A → Z) (l1 l2 : list A) :
  l1 ≡ₚ l2 → sumZ (map f l1) = sumZ (map f l2).
Proof.
  induction 1 as [|x l l' _ IH|x y l|l l' l'' _ IH1 _ IH2];
    rewrite ?map_cons, ?sumZ_cons; [done|lia|lia|congruence].
Qed.

Lemma by_total_desc_lt (x y : MemberId * Z) :
  (y.2 <? x.2) = key_lt (by_total_desc x) (by_total_desc y).
Proof.
  unfold key_lt, by_total_desc. cbn [fst snd].
  rewrite andb_false_r, orb_false_r.
  destruct (y.2 <? x.2) eqn:E1; destruct (- x.2 <? - y.2) eqn:E2; try done;
    rewrite ?Z.ltb_lt, ?Z.ltb_ge in *; lia.
Qed.

(** Summing the members' totals over a duplicate-free roster counts every
    row of a roster member once. *)
Lemma member_totals_sum (table : list SplitRow) (members : list MemberId)
    (start_date end_date : Z) :
  NoDup members →
  sumZ (map (λ m, calculate_total_expense_for_member table m start_date end_date)
            members)
  = sumZ (map (λ r, if bool_decide (row_member r ∈ members)
                       && in_date_range start_date end_date r
                    then row_amount r else 0) table).
Proof.
  intros Hnd. induction table as [|r t IH].
  - rewrite sumZ_map_zero; [done|]. intros m _. by rewrite total_expense_sum.
  - rewrite map_cons, sumZ_cons, <- IH.
    assert ((if bool_decide (row_member r ∈ members)
                && in_date_range start_date end_date r
             then row_amount r else 0)
            = sumZ (map (λ m, if decide (in_date_range start_date end_date r = true
                                         ∧ row_member r = m)
                              then row_amount r else 0) members)) as ->.
    { destruct (decide (row_member r ∈ members)) as [Hin|Hout].
      - rewrite sumZ_indicator, bool_decide_eq_true_2 by done.
        cbn [andb]. destruct (in_date_range start_date end_date r).
        + by rewrite decide_True.
        + by rewrite decide_False.
      - rewrite bool_decide_eq_false_2 by done. cbn [andb].
        rewrite sumZ_map_zero; [done|]. intros m Hm.
        rewrite decide_False; [done|]. intros [_ <-]. done. }
    rewrite <- sumZ_map_add. f_equal. apply map_ext. intros m.
    rewrite !total_expense_sum, map_cons, sumZ_cons. f_equal.
    unfold of_member.
    destruct (decide (row_member r = m)) as [Hm|Hm].
    + rewrite bool_decide_eq_true_2 by done. cbn [andb].
      destruct (in_date_range start_date end_date r).
      * by rewrite decide_True.
      * rewrite decide_False; [done|]. intros [? _]. done.
    + rewrite bool_decide_eq_false_2 by done. cbn [andb].
      rewrite decide_False; [done|]. intros [_ ?]. done.
Qed.

(** X23.  [calculate_group_expenses] ranks the members of the roster: the
    ranking lists every member once with their total for the period, totals
    never increase along it, and members with equal totals keep roster
    order.  When the rows of the group's receipts are exactly the rows of
    the roster's members, the members' totals add up to the group total. *)
Theorem calculate_group_expenses_ranking (table : list SplitRow)
    (members : list MemberId) (group : GroupId) (start_date end_date : Z) :
  let '(total, ranking) :=
    calculate_group_expenses table members group start_date end_date in
  ranking ≡ₚ map (λ m, (m, calculate_total_expense_for_member table m
                              start_date end_date)) members
  ∧ StronglySorted (λ x y, y.2 ≤ x.2) ranking
  ∧ (∀ t, filter (λ x, x.2 = t) ranking
          = filter (λ x, x.2 = t)
                   (map (λ m, (m, calculate_total_expense_for_member table m
                                    start_date end_date)) members))
  ∧ (NoDup members →
     (∀ r, r ∈ table → row_group r = group ↔ row_member r ∈ members) →
     sumZ (map snd ranking) = total).
Proof.
  unfold calculate_group_expenses.
  set (expenses := map _ members).
  rewrite (stable_sort_ext _ (λ x y, key_lt (by_total_desc x) (by_total_desc y)))
    by apply by_total_desc_lt.
  split; [apply stable_sort_perm|]. split; [|split].
  - eapply StronglySorted_weaken; [|apply (stable_sort_sorted by_total_desc)].
    intros x y H. apply key_lt_false in H. unfold by_total_desc in H.
    cbn [fst snd] in H. lia.
  - intros t.
    pose proof (stable_sort_filter by_total_desc (- t, 0) expenses) as H.
    assert (∀ l : list (MemberId * Z),
              filter (λ x, x.2 = t) l
              = filter (λ x, by_total_desc x = (- t, 0)) l) as Heq.
    { intros l. apply list_filter_iff. intros x. unfold by_total_desc.
      split; [intros ->; done|]. intros [= E]. lia. }
    by rewrite !Heq.
  - intros Hnd Hrows.
    rewrite (sumZ_map_perm snd _ _ (stable_sort_perm by_total_desc expenses)).
    subst expenses. rewrite map_map. cbn [snd].
    rewrite member_totals_sum by done.
    rewrite or_zero_aggregate_sum, sumZ_filter.
    f_equal. apply map_ext_in. intros r Hr.
    apply list_elem_of_In in Hr.
    destruct (decide (row_group r = group)) as [Hg|Hg].
    + rewrite (bool_decide_eq_true_2 _ Hg).
      by rewrite bool_decide_eq_true_2 by (by apply Hrows).
    + rewrite (bool_decide_eq_false_2 _ Hg).
      rewrite bool_decide_eq_false_2; [done|]. intros H. by apply Hrows in H.
Qed.









(** * The history query *)

(** X25.  [validate_history_params] never raises, and it accepts exactly the
    queries whose view, sort key and sort order (or their defaults
    [my_items], [purchase_date], [asc]) are among the allowed words and
    whose page and page size (defaults 1 and 20) are texts of integers with
    the page at least 1 and the page size in 1..100; it then returns those
    values, the search text and the category unchanged. *)
Theorem validate_history_params_accepts (query_params : gmap string string)
    (params : HistoryParams) :
  (∃ r, validate_history_params query_params = Returned r)
  ∧ (validate_history_params query_params = Returned (history_ok params)
     ↔ params_view params = query_get query_params "view" "my_items"
       ∧ params_view params ∈ ["my_items"; "group_items"]
       ∧ params_sort_by params = query_get query_params "sort_by" "purchase_date"
       ∧ params_sort_by params ∈ ["purchase_date"; "price"; "quantity"]
       ∧ params_sort_order params = query_get query_params "sort_order" "asc"
       ∧ params_sort_order params ∈ ["asc"; "desc"]
       ∧ params_search params = query_get query_params "search" ""
       ∧ params_category_id params = query_params !! "category_id"
       ∧ py_int (arg_str (query_get query_params "page" "1"))
         = Returned (params_page params)
       ∧ py_int (arg_str (query_get query_params "page_size" "20"))
         = Returned (params_page_size params)
       ∧ 1 ≤ params_page params
       ∧ 1 ≤ params_page_size params ≤ 100).
Proof.
  unfold validate_history_params.
  destruct params as [v sb so se cat pg ps]. cbn [params_view params_sort_by
    params_sort_order params_search params_category_id params_page
    params_page_size].
  set (view := query_get query_params "view" "my_items").
  set (sort_by := query_get query_params "sort_by" "purchase_date").
  set (sort_order := query_get query_params "sort_order" "asc").
  set (search := query_get query_params "search" "").
  set (page := query_get query_params "page" "1").
  set (page_size := query_get query_params "page_size" "20").
  destruct (decide (view ∈ ["my_items"; "group_items"])) as [Hv|Hv].
  2: { rewrite (bool_decide_eq_false_2 _ Hv). cbn [negb]. split; [eauto|].
       split; [discriminate|]. intros (-> & H & _). done. }
  rewrite (bool_decide_eq_true_2 _ Hv). cbn [negb].
  destruct (decide (sort_by ∈ ["purchase_date"; "price"; "quantity"]))
    as [Hsb|Hsb].
  2: { rewrite (bool_decide_eq_false_2 _ Hsb). cbn [negb]. split; [eauto|].
       split; [discriminate|]. intros (_ & _ & -> & H & _). done. }
  rewrite (bool_decide_eq_true_2 _ Hsb). cbn [negb].
  destruct (decide (sort_order ∈ ["asc"; "desc"])) as [Hso|Hso].
  2: { rewrite (bool_decide_eq_false_2 _ Hso). cbn [negb]. split; [eauto|].
       split; [discriminate|]. intros (_ & _ & _ & _ & -> & H & _). done. }
  rewrite (bool_decide_eq_true_2 _ Hso). cbn [negb].
  unfold try_except.
  destruct (py_int_cases (arg_str page)) as [[pg' ->]|[msg ->]];
    cbn [mbind outcome_bind].
  2: { split; [eauto|]. split; [discriminate|].
       intros (_ & _ & _ & _ & _ & _ & _ & _ & H & _). discriminate. }
  destruct (py_int_cases (arg_str page_size)) as [[ps' ->]|[msg ->]];
    cbn [mbind outcome_bind].
  2: { split; [eauto|]. split; [discriminate|].
       intros (_ & _ & _ & _ & _ & _ & _ & _ & _ & H & _). discriminate. }
  destruct (pg' <? 1) eqn:Epg.
  { apply Z.ltb_lt in Epg. split; [eauto|]. split; [discriminate|].
    intros (_ & _ & _ & _ & _ & _ & _ & _ & [= ->] & _ & H & _). lia. }
  apply Z.ltb_ge in Epg.
  destruct ((ps' <? 1) || (ps' >? 100)) eqn:Eps.
  { split; [eauto|]. split; [discriminate|].
    intros (_ & _ & _ & _ & _ & _ & _ & _ & _ & [= ->] & _ & H).
    apply orb_true_iff in Eps as [E|E].
    - apply Z.ltb_lt in E. lia.
    - rewrite Z.gtb_ltb in E. apply Z.ltb_lt in E. lia. }
  apply orb_false_iff in Eps as [E1 E2].
  apply Z.ltb_ge in E1. rewrite Z.gtb_ltb in E2. apply Z.ltb_ge in E2.
  split; [eauto|]. split.
  - intros [= -> -> -> -> -> -> ->]. repeat split; try done; lia.
  - intros (-> & _ & -> & _ & -> & _ & -> & -> & [= ->] & [= ->] & _). done.
Qed.

(** X26.  The parameters [validate_history_params] accepts always sort:
    [apply_sorting] finds the sort key in its table and orders by the
    purchase date, the price or the quantity, reached through
    [receipt_item__] exactly in the view [my_items], and descending (a
    leading [-]) exactly when the order is [desc]. *)
Theorem validated_history_params_sort (query_params : gmap string string)
    (params : HistoryParams) :
  validate_history_params query_params = Returned (history_ok params) →
  ∃ field,
    apply_sorting (params_view params) (params_sort_by params)
                  (params_sort_order params)
    = Some (String.append
              (if bool_decide (params_sort_order params = "desc") then "-" else "")
              (String.append
                 (if bool_decide (params_view params = "my_items")
                  then "receipt_item__" else "")
                 field))
    ∧ field ∈ ["receipt__purchase_date"; "price"; "quantity"]
    ∧ (field = "receipt__purchase_date"
       ↔ params_sort_by params = "purchase_date")
    ∧ (field = "price" ↔ params_sort_by params = "price").
Proof.
  intros H. apply validate_history_params_accepts in H
    as (_ & Hv & _ & Hsb & _ & Hso & _).
  destruct params as [v sb so se cat pg ps]. cbn [params_view params_sort_by
    params_sort_order] in *.
  assert (v = "my_items" ∨ v = "group_items") as Hv'
    by (revert Hv; rewrite !elem_of_cons, elem_of_nil; tauto).
  assert (sb = "purchase_date" ∨ sb = "price" ∨ sb = "quantity") as Hsb'
    by (revert Hsb; rewrite !elem_of_cons, elem_of_nil; tauto).
  assert (so = "asc" ∨ so = "desc") as Hso'
    by (revert Hso; rewrite !elem_of_cons, elem_of_nil; tauto).
  clear Hv Hsb Hso.
  destruct Hsb' as [-> | [-> | ->]];
    [exists "receipt__purchase_date" | exists "price" | exists "quantity"];
    (split; [destruct Hv' as [-> | ->], Hso' as [-> | ->]; reflexivity|]);
    (split; [rewrite !elem_of_cons; tauto|]);
    split; (split; [done|]; intros; done).
Qed.

Lemma validated_history_params_sort_witness :
  ∃ field,
    apply_sorting "group_items" "price" "desc"
    = Some (String.append "-" (String.append "" field))
    ∧ field ∈ ["receipt__purchase_date"; "price"; "quantity"].
Proof.
  destruct (validated_history_params_sort
              {[ "view" := "group_items"; "sort_by" := "price";
                 "sort_order" := "desc"; "page" := "2" ]}
              (mkParams "group_items" "price" "desc" "" None 2 20))
    as (field & H1 & H2 & _).
  - vm_compute. reflexivity.
  - exists field. split; [exact H1|exact H2].
Defined.

(** * Months *)

Lemma div_mod_unique_pos (x d q r : Z) :
  0 ≤ r < d → x = d * q + r → x / d = q ∧ x mod d = r.
Proof.
  intros Hr ->. split.
  - symmetry. apply (Z.div_unique_pos _ _ q r); [lia|done].
  - symmetry. apply (Z.mod_unique_pos _ _ q r); [lia|done].
Qed.

(** The cycles of the calendar: a year number less one splits into whole
    400-year, 100-year and 4-year cycles and single years, which give the
    days before the year and whether it is a leap year. *)
Lemma year_cycles (year : Z) :
  1 ≤ year →
  ∃ a b c e,
    year - 1 = 400 * a + 100 * b + 4 * c + e
    ∧ 0 ≤ a ∧ 0 ≤ b ≤ 3 ∧ 0 ≤ c ≤ 24 ∧ 0 ≤ e ≤ 3
    ∧ days_before_year year = 146097 * a + 36524 * b + 1461 * c + 365 * e
    ∧ is_leap year = (e =? 3) && (negb (c =? 24) || (b =? 3)).
Proof.
  intros Hy.
  exists ((year - 1) / 400), ((year - 1) mod 400 / 100),
         ((year - 1) mod 400 mod 100 / 4), ((year - 1) mod 400 mod 100 mod 4).
  set (a := (year - 1) / 400). set (r := (year - 1) mod 400).
  set (b := r / 100). set (r' := r mod 100).
  set (c := r' / 4). set (e := r' mod 4).
  assert (year - 1 = 400 * a + r ∧ 0 ≤ r < 400) as [Ha Hr].
  { subst a r. pose proof (Z.div_mod (year - 1) 400).
    pose proof (Z.mod_pos_bound (year - 1) 400). lia. }
  assert (r = 100 * b + r' ∧ 0 ≤ r' < 100) as [Hb Hr'].
  { subst b r'. pose proof (Z.div_mod r 100).
    pose proof (Z.mod_pos_bound r 100). lia. }
  assert (r' = 4 * c + e ∧ 0 ≤ e < 4) as [Hc He].
  { subst c e. pose proof (Z.div_mod r' 4).
    pose proof (Z.mod_pos_bound r' 4). lia. }
  clearbody a r b r' c e.
  assert (0 ≤ a ∧ 0 ≤ b ≤ 3 ∧ 0 ≤ c ≤ 24) as (Ha0 & Hb0 & Hc0) by lia.
  split; [lia|]. do 4 (split; [lia|]). split.
  - unfold days_before_year.
    destruct (div_mod_unique_pos (year - 1) 4 (100 * a + 25 * b + c) e)
      as [-> _]; [lia..|].
    destruct (div_mod_unique_pos (year - 1) 100 (4 * a + b) (4 * c + e))
      as [-> _]; [lia..|].
    destruct (div_mod_unique_pos (year - 1) 400 a (100 * b + 4 * c + e))
      as [-> _]; [lia..|].
    lia.
  - unfold is_leap.
    assert (year mod 4 = (e + 1) mod 4) as ->.
    { replace year with ((e + 1) + (100 * a + 25 * b + c) * 4) by lia.
      apply Z.mod_add. lia. }
    assert (year mod 100 = (4 * c + e + 1) mod 100) as ->.
    { replace year with ((4 * c + e + 1) + (4 * a + b) * 100) by lia.
      apply Z.mod_add. lia. }
    assert (year mod 400 = (100 * b + 4 * c + e + 1) mod 400) as ->.
    { replace year with ((100 * b + 4 * c + e + 1) + a * 400) by lia.
      apply Z.mod_add. lia. }
    assert (e = 0 ∨ e = 1 ∨ e = 2 ∨ e = 3) as He' by lia.
    destruct He' as [-> | [-> | [-> | ->]]]; [reflexivity..|].
    + replace ((3 + 1) mod 4 =? 0) with true by reflexivity.
      replace (3 =? 3) with true by reflexivity. cbn [andb].
      destruct (c =? 24) eqn:Ec.
      * apply Z.eqb_eq in Ec. subst c.
        replace ((4 * 24 + 3 + 1) mod 100) with 0 by reflexivity.
        cbn [Z.eqb negb orb].
        destruct (b =? 3) eqn:Eb.
        -- apply Z.eqb_eq in Eb. subst b. reflexivity.
        -- apply Z.eqb_neq in Eb.
           destruct (div_mod_unique_pos (100 * b + 4 * 24 + 3 + 1) 400 0
                       (100 * b + 100)) as [_ ->]; [lia..|].
           apply Z.eqb_neq. lia.
      * apply Z.eqb_neq in Ec.
        destruct (div_mod_unique_pos (4 * c + 3 + 1) 100 0 (4 * c + 4))
          as [_ ->]; [lia..|].
        cbn [negb].
        assert ((4 * c + 4 =? 0) = false) as -> by (apply Z.eqb_neq; lia).
        reflexivity.
Qed.

Lemma ord2ymd_cycles (a b c e n : Z) :
  0 ≤ a → 0 ≤ b ≤ 3 → 0 ≤ c ≤ 24 → 0 ≤ e ≤ 3 → 0 ≤ n ≤ 364 →
  ord2ymd (146097 * a + 36524 * b + 1461 * c + 365 * e + n + 1)
  = let leapyear := (e =? 3) && (negb (c =? 24) || (b =? 3)) in
    (400 * a + 100 * b + 4 * c + e + 1,
     (month_and_day leapyear n).1, (month_and_day leapyear n).2).
Proof.
  intros Ha Hb Hc He Hn. unfold ord2ymd, DI400Y, DI100Y, DI4Y. cbv zeta.
  replace (146097 * a + 36524 * b + 1461 * c + 365 * e + n + 1 - 1)
    with (146097 * a + (36524 * b + 1461 * c + 365 * e + n)) by lia.
  destruct (div_mod_unique_pos
              (146097 * a + (36524 * b + 1461 * c + 365 * e + n)) 146097 a
              (36524 * b + 1461 * c + 365 * e + n)) as [-> ->]; [lia..|].
  destruct (div_mod_unique_pos (36524 * b + 1461 * c + 365 * e + n) 36524 b
              (1461 * c + 365 * e + n)) as [-> ->]; [lia..|].
  destruct (div_mod_unique_pos (1461 * c + 365 * e + n) 1461 c (365 * e + n))
    as [-> ->]; [lia..|].
  destruct (div_mod_unique_pos (365 * e + n) 365 e n) as [-> ->]; [lia..|].
  assert ((e =? 4) = false) as -> by (apply Z.eqb_neq; lia).
  assert ((b =? 4) = false) as -> by (apply Z.eqb_neq; lia).
  cbn [orb]. destruct (month_and_day _ n) as [month day]. cbn [fst snd].
  f_equal. f_equal. lia.
Qed.

Lemma ord2ymd_year_end (a b c : Z) :
  0 ≤ a → 0 ≤ b ≤ 3 → 0 ≤ c ≤ 24 → (c ≠ 24 ∨ b = 3) →
  ord2ymd (146097 * a + 36524 * b + 1461 * c + 365 * 3 + 365 + 1)
  = (400 * a + 100 * b + 4 * c + 3 + 1, 12, 31).
Proof.
  intros Ha Hb Hc Hleap. unfold ord2ymd, DI400Y, DI100Y, DI4Y. cbv zeta.
  replace (146097 * a + 36524 * b + 1461 * c + 365 * 3 + 365 + 1 - 1)
    with (146097 * a + (36524 * b + 1461 * c + 1460)) by lia.
  destruct (div_mod_unique_pos
              (146097 * a + (36524 * b + 1461 * c + 1460)) 146097 a
              (36524 * b + 1461 * c + 1460)) as [-> ->]; [lia..|].
  destruct (decide (c = 24)) as [->|Hc24].
  - assert (b = 3) as -> by lia.
    replace ((36524 * 3 + 1461 * 24 + 1460) / 36524) with 4 by reflexivity.
    replace (4 =? 4) with true by reflexivity. rewrite orb_true_r.
    replace ((36524 * 3 + 1461 * 24 + 1460) mod 36524) with 0 by reflexivity.
    replace (0 / 1461) with 0 by reflexivity.
    replace (0 mod 1461) with 0 by reflexivity.
    replace (0 / 365) with 0 by reflexivity.
    f_equal. f_equal. lia.
  - destruct (div_mod_unique_pos (36524 * b + 1461 * c + 1460) 36524 b
                (1461 * c + 1460)) as [-> ->]; [lia..|].
    destruct (div_mod_unique_pos (1461 * c + 1460) 1461 c 1460)
      as [-> ->]; [lia..|].
    replace (1460 / 365) with 4 by reflexivity.
    replace (4 =? 4) with true by reflexivity. cbn [orb].
    f_equal. f_equal. lia.
Qed.

(** The [n]-th day (from 0) of a year has that year, and the month and day
    that [month_and_day] finds. *)
Lemma ord2ymd_in_year (year n : Z) :
  1 ≤ year → 0 ≤ n < 365 + (if is_leap year then 1 else 0) →
  ord2ymd (days_before_year year + n + 1)
  = (year, (month_and_day (is_leap year) n).1,
     (month_and_day (is_leap year) n).2).
Proof.
  intros Hy Hn.
  destruct (year_cycles year Hy)
    as (a & b & c & e & HY & Ha & Hb & Hc & He & -> & Hleap).
  destruct (decide (n = 365)) as [->|Hn365].
  - destruct (is_leap year) eqn:El; [|lia]. symmetry in Hleap.
    apply andb_true_iff in Hleap as [He3 Hcb]. apply Z.eqb_eq in He3. subst e.
    rewrite ord2ymd_year_end; [|lia..|].
    + replace (month_and_day true 365) with (12, 31) by reflexivity.
      cbn [fst snd]. do 2 f_equal. lia.
    + apply orb_true_iff in Hcb as [Hcb|Hcb].
      * left. apply negb_true_iff, Z.eqb_neq in Hcb. done.
      * right. by apply Z.eqb_eq in Hcb.
  - rewrite ord2ymd_cycles; [|lia..|].
    + cbv zeta. rewrite <- Hleap. f_equal. f_equal. lia.
    + destruct (is_leap year); lia.
Qed.

Lemma days_before_month_table (year month : Z) :
  1 ≤ month ≤ 12 →
  days_before_month year month
  = DAYS_BEFORE_MONTH month + (if (month >? 2) && is_leap year then 1 else 0).
Proof.
  intros Hm.
  assert (month = 1 ∨ month = 2 ∨ month = 3 ∨ month = 4 ∨ month = 5 ∨ month = 6
          ∨ month = 7 ∨ month = 8 ∨ month = 9 ∨ month = 10 ∨ month = 11
          ∨ month = 12) as Hcases by lia.
  unfold days_before_month.
  repeat (destruct Hcases as [-> | Hcases]); try subst month;
    repeat match goal with
           | |- context [Z.to_nat ?x] =>
               let v := eval vm_compute in (Z.to_nat x) in
               change (Z.to_nat x) with v
           end;
    cbn [days_before_month_aux]; unfold days_in_month;
    destruct (is_leap year); reflexivity.
Qed.

Lemma days_in_month_table (year month : Z) :
  1 ≤ month ≤ 12 →
  days_in_month year month
  = DAYS_IN_MONTH month + (if (month =? 2) && is_leap year then 1 else 0).
Proof.
  intros Hm.
  assert (month = 1 ∨ month = 2 ∨ month = 3 ∨ month = 4 ∨ month = 5 ∨ month = 6
          ∨ month = 7 ∨ month = 8 ∨ month = 9 ∨ month = 10 ∨ month = 11
          ∨ month = 12) as Hcases by lia.
  repeat (destruct Hcases as [-> | Hcases]); try subst month;
    unfold days_in_month; destruct (is_leap year); reflexivity.
Qed.

Lemma month_and_day_inverse (leapyear : bool) (month day : Z) :
  1 ≤ month ≤ 12 →
  1 ≤ day ≤ DAYS_IN_MONTH month + (if (month =? 2) && leapyear then 1 else 0) →
  month_and_day leapyear
    (DAYS_BEFORE_MONTH month + (if (month >? 2) && leapyear then 1 else 0)
     + day - 1)
  = (month, day).
Proof.
  intros Hm Hd.
  assert (Forall (λ leapyear, Forall (λ month, Forall (λ day,
            day ≤ DAYS_IN_MONTH month
                  + (if (month =? 2) && leapyear then 1 else 0) →
            month_and_day leapyear
              (DAYS_BEFORE_MONTH month
               + (if (month >? 2) && leapyear then 1 else 0) + day - 1)
            = (month, day)) (seqZ 1 31)) (seqZ 1 12)) [true; false]) as Hall.
  { apply (bool_decide_unpack _). vm_compute. exact I. }
  assert (leapyear ∈ [true; false]) as Hl
    by (destruct leapyear; rewrite !elem_of_cons; tauto).
  rewrite Forall_forall in Hall. specialize (Hall leapyear Hl).
  rewrite Forall_forall in Hall.
  specialize (Hall month ltac:(apply elem_of_seqZ; lia)).
  rewrite Forall_forall in Hall.
  assert (day ≤ 31).
  { assert (DAYS_IN_MONTH month ≤ 31 ∧ ((month =? 2) = true → DAYS_IN_MONTH month = 28)).
    { assert (month = 1 ∨ month = 2 ∨ month = 3 ∨ month = 4 ∨ month = 5
              ∨ month = 6 ∨ month = 7 ∨ month = 8 ∨ month = 9 ∨ month = 10
              ∨ month = 11 ∨ month = 12) as Hcases by lia.
      repeat (destruct Hcases as [-> | Hcases]); try subst month;
        (split; [vm_compute; discriminate|]); vm_compute; done. }
    destruct (month =? 2); destruct leapyear; cbn [andb] in Hd; lia. }
  apply Hall; [apply elem_of_seqZ; lia|lia].
Qed.

(** The year, month and day of the ordinal of a date are those of the
    date. *)
Lemma ord2ymd_ymd2ord (year month day : Z) :
  1 ≤ year → 1 ≤ month ≤ 12 → 1 ≤ day ≤ days_in_month year month →
  ord2ymd (ymd2ord year month day) = (year, month, day).
Proof.
  intros Hy Hm Hd. unfold ymd2ord.
  replace (days_before_year year + days_before_month year month + day)
    with (days_before_year year + (days_before_month year month + day - 1) + 1)
    by lia.
  rewrite ord2ymd_in_year; [|done|].
  - rewrite days_before_month_table by done.
    rewrite days_in_month_table in Hd by done.
    by rewrite month_and_day_inverse.
  - pose proof (days_before_month_nonneg year month).
    pose proof (days_before_month_mono year (month + 1) 13 ltac:(lia)) as Hmono.
    rewrite days_before_month_next, days_before_month_13 in Hmono by lia. lia.
Qed.

Lemma is_leap_not_twice (year : Z) :
  is_leap year = true → is_leap (year - 1) = false.
Proof.
  unfold is_leap. intros H. apply andb_true_iff in H as [H _].
  apply Z.eqb_eq in H. apply andb_false_iff. left. apply Z.eqb_neq.
  revert H. Z.div_mod_to_equations. lia.
Qed.

Lemma days_before_year_nonneg (year : Z) : 1 ≤ year → 0 ≤ days_before_year year.
Proof.
  intros H. pose proof (days_before_year_mono 1 year H) as Hm.
  replace (days_before_year 1) with 0 in Hm by reflexivity. done.
Qed.

Lemma days_before_month_in_year (year month : Z) :
  1 ≤ month ≤ 12 →
  0 ≤ days_before_month year month
  ∧ days_before_month year month + 28
    ≤ 365 + (if is_leap year then 1 else 0).
Proof.
  intros Hm. split; [apply days_before_month_nonneg|].
  pose proof (days_before_month_mono year (month + 1) 13 ltac:(lia)) as Hmono.
  rewrite days_before_month_next, days_before_month_13 in Hmono by lia.
  pose proof (days_in_month_bounds year month). lia.
Qed.

(** The day 30 * i days before the first of a month lies in the year and
    month that [walk_back] computes. *)
Lemma walk_back_target (year month i : Z) :
  2 ≤ year → 1 ≤ month ≤ 12 → 0 ≤ i ≤ 11 →
  (ord2ymd (ymd2ord year month 1 - 30 * i)).1
  = (year + (walk_back (is_leap year) (is_leap (year - 1)) month i).1,
     (walk_back (is_leap year) (is_leap (year - 1)) month i).2).
Proof.
  intros Hy Hm Hi. unfold walk_back, ymd2ord.
  rewrite <- days_before_month_table by done.
  pose proof (days_before_month_in_year year month Hm) as [Hk0 Hk1].
  set (k := days_before_month year month) in *. clearbody k.
  destruct (0 <=? k - 30 * i) eqn:E.
  - apply Z.leb_le in E.
    replace (days_before_year year + k + 1 - 30 * i)
      with (days_before_year year + (k - 30 * i) + 1) by lia.
    rewrite ord2ymd_in_year; [|lia|destruct (is_leap year); lia].
    cbn [fst snd]. f_equal; lia.
  - apply Z.leb_gt in E.
    pose proof (days_before_year_next (year - 1)) as Hnext.
    replace (year - 1 + 1) with year in Hnext by lia.
    replace (days_before_year year + k + 1 - 30 * i)
      with (days_before_year (year - 1)
            + (365 + (if is_leap (year - 1) then 1 else 0) + (k - 30 * i)) + 1)
      by lia.
    rewrite ord2ymd_in_year;
      [|lia|destruct (is_leap year), (is_leap (year - 1)); lia].
    cbn [fst snd]. f_equal; lia.
Qed.

Lemma monthly_loop_spec (table : list SplitRow) (member : MemberId)
    (current_date : Z) (entry : Z → Z * Z * Z) (range : list Z)
    (expenses : list (Z * Z * Z)) :
  (∀ i, i ∈ range →
        monthly_entry table member current_date i = in_range (entry i)) →
  monthly_loop table member current_date range expenses
  = in_range (expenses ++ map entry range).
Proof.
  revert expenses. induction range as [|i range IH]; intros expenses H.
  - cbn. by rewrite app_nil_r.
  - cbn [monthly_loop map]. rewrite (H i) by left.
    rewrite IH by (intros; apply H; by right).
    by rewrite <- app_assoc.
Qed.

(** The walk written out: entry [i] is the entry of the calendar month in
    which the day 30 * i days before the first of the current month lies. *)
Lemma calculate_monthly_expenses_walk (table : list SplitRow) (member : MemberId)
    (year month day num_months : Z) :
  2 ≤ year ≤ 9999 → 1 ≤ month ≤ 12 → 1 ≤ day ≤ days_in_month year month →
  num_months ≤ 12 →
  calculate_monthly_expenses table member (ymd2ord year month day) num_months
  = in_range
      (map (λ i, month_entry table member
                   (year + (walk_back (is_leap year) (is_leap (year - 1))
                                      month i).1,
                    (walk_back (is_leap year) (is_leap (year - 1)) month i).2))
           (seqZ 0 num_months)).
Proof.
  intros Hy Hm Hd Hn. unfold calculate_monthly_expenses.
  rewrite (monthly_loop_spec _ _ _
             (λ i, month_entry table member
                     (year + (walk_back (is_leap year) (is_leap (year - 1))
                                        month i).1,
                      (walk_back (is_leap year) (is_leap (year - 1)) month i).2)));
    [done|].
  intros i Hi. apply elem_of_seqZ in Hi.
  unfold monthly_entry, date_day.
  rewrite ord2ymd_ymd2ord by lia. cbn [snd].
  pose proof (days_in_month_bounds year month) as Hdim.
  destruct (ymd2ord_bounds year month 1 ltac:(lia) Hm ltac:(lia)) as [Hfirst _].
  assert (ymd2ord year month day + - (day - 1) = ymd2ord year month 1) as Hsub
    by (unfold ymd2ord; lia).
  unfold date_add at 1. rewrite Hsub.
  destruct ((1 <=? ymd2ord year month 1) && (ymd2ord year month 1 <=? max_ordinal))
    eqn:E1.
  2: { apply andb_false_iff in E1 as [E|E];
         [apply Z.leb_gt in E|apply Z.leb_gt in E]; lia. }
  unfold date_add.
  assert (1 ≤ ymd2ord year month 1 + - (30 * i)) as Hlow.
  { pose proof (days_before_year_next (year - 1)) as Hnext.
    replace (year - 1 + 1) with year in Hnext by lia.
    pose proof (days_before_year_nonneg (year - 1) ltac:(lia)).
    pose proof (days_before_month_nonneg year month).
    unfold ymd2ord. destruct (is_leap (year - 1)); lia. }
  destruct ((1 <=? ymd2ord year month 1 + - (30 * i))
            && (ymd2ord year month 1 + - (30 * i) <=? max_ordinal)) eqn:E2.
  2: { apply andb_false_iff in E2 as [E|E];
         [apply Z.leb_gt in E|apply Z.leb_gt in E]; lia. }
  unfold date_year, date_month.
  replace (ymd2ord year month 1 + - (30 * i))
    with (ymd2ord year month 1 - 30 * i) by lia.
  rewrite (walk_back_target year month i) by lia.
  reflexivity.
Qed.

Lemma months_back_offset (year month i : Z) :
  1 ≤ month ≤ 12 → 0 ≤ i ≤ 11 →
  months_back year month i
  = (year + (if month - 1 - i <? 0 then -1 else 0), (month - 1 - i) mod 12 + 1).
Proof.
  intros Hm Hi. unfold months_back. cbv zeta.
  destruct (month - 1 - i <? 0) eqn:E.
  - apply Z.ltb_lt in E.
    destruct (div_mod_unique_pos (12 * year + (month - 1) - i) 12 (year - 1)
                (month - 1 - i + 12)) as [-> ->]; [lia..|].
    destruct (div_mod_unique_pos (month - 1 - i) 12 (-1) (month - 1 - i + 12))
      as [_ ->]; [lia..|].
    f_equal.
  - apply Z.ltb_ge in E.
    destruct (div_mod_unique_pos (12 * year + (month - 1) - i) 12 year
                (month - 1 - i)) as [-> ->]; [lia..|].
    destruct (div_mod_unique_pos (month - 1 - i) 12 0 (month - 1 - i))
      as [_ ->]; [lia..|].
    f_equal. lia.
Qed.

(** X27.  Outside March, and April and May of a common year,
    [calculate_monthly_expenses] lists the calendar months one by one: entry
    [i] is the month [i] months before the current one, with the member's
    total from its first to its last day.  (For a current date from year 2
    on and at most 12 months.) *)
Theorem calculate_monthly_expenses_consecutive (table : list SplitRow)
    (member : MemberId) (year month day num_months : Z) :
  2 ≤ year ≤ 9999 → 1 ≤ month ≤ 12 → 1 ≤ day ≤ days_in_month year month →
  num_months ≤ 12 →
  skips_february year month = false →
  calculate_monthly_expenses table member (ymd2ord year month day) num_months
  = in_range (map (λ i, month_entry table member (months_back year month i))
                  (seqZ 0 num_months)).
Proof.
  intros Hy Hm Hd Hn Hskip.
  rewrite calculate_monthly_expenses_walk by done.
  f_equal. apply map_ext_in. intros i Hi.
  apply list_elem_of_In, elem_of_seqZ in Hi.
  rewrite months_back_offset by lia. f_equal.
  assert (Forall (λ leap, Forall (λ leap_before, Forall (λ month, Forall (λ i,
            leap && leap_before = false →
            (month =? 3) || (((month =? 4) || (month =? 5)) && negb leap) = false →
            walk_back leap leap_before month i
            = (if month - 1 - i <? 0 then -1 else 0, (month - 1 - i) mod 12 + 1))
          (seqZ 0 12)) (seqZ 1 12)) [true; false]) [true; false]) as Hall.
  { apply (bool_decide_unpack _). vm_compute. exact I. }
  rewrite Forall_forall in Hall.
  specialize (Hall (is_leap year)
                ltac:(destruct (is_leap year); rewrite !elem_of_cons; tauto)).
  rewrite Forall_forall in Hall.
  specialize (Hall (is_leap (year - 1))
                ltac:(destruct (is_leap (year - 1)); rewrite !elem_of_cons; tauto)).
  rewrite Forall_forall in Hall.
  specialize (Hall month ltac:(apply elem_of_seqZ; lia)).
  rewrite Forall_forall in Hall.
  specialize (Hall i ltac:(apply elem_of_seqZ; lia)).
  rewrite Hall; [done| |exact Hskip].
  destruct (is_leap year) eqn:El; [|done].
  by rewrite (is_leap_not_twice year El).
Qed.

Lemma calculate_monthly_expenses_consecutive_witness :
  calculate_monthly_expenses [mkRow 1 250 (Some 739250) 1 None] 1%positive
    (ymd2ord 2025 1 15) 3
  = in_range
      (map (λ i, month_entry [mkRow 1 250 (Some 739250) 1 None] 1%positive
                   (months_back 2025 1 i))
           (seqZ 0 3)).
Proof.
  apply (calculate_monthly_expenses_consecutive
           [mkRow 1 250 (Some 739250) 1 None] 1%positive 2025 1 15 3);
    [lia | lia | vm_compute; split; discriminate | lia | reflexivity].
Defined.

(** X28.  In March, and in April and May of a common year, the twelve
    entries of [calculate_monthly_expenses] never include February of the
    current year, and some month is listed twice: the steps of 30 days from
    the first of the month jump over February.  (For a current date from
    year 2 on.) *)
Theorem calculate_monthly_expenses_skips_february (table : list SplitRow)
    (member : MemberId) (year month day : Z) :
  2 ≤ year ≤ 9999 → 1 ≤ month ≤ 12 → 1 ≤ day ≤ days_in_month year month →
  skips_february year month = true →
  ∃ expenses,
    calculate_monthly_expenses table member (ymd2ord year month day) 12
    = in_range expenses
    ∧ length expenses = 12%nat
    ∧ (∀ total, (year, 2, total) ∉ expenses)
    ∧ ¬ NoDup (map fst expenses).
Proof.
  intros Hy Hm Hd Hskip.
  rewrite calculate_monthly_expenses_walk by (done || lia).
  eexists. split; [reflexivity|].
  assert (Forall (λ leap, Forall (λ leap_before, Forall (λ month,
            (month =? 3) || (((month =? 4) || (month =? 5)) && negb leap) = true →
            ((0, 2) ∉ map (walk_back leap leap_before month) (seqZ 0 12))
            ∧ ¬ NoDup (map (walk_back leap leap_before month) (seqZ 0 12)))
          (seqZ 1 12)) [true; false]) [true; false]) as Hall.
  { apply (bool_decide_unpack _). vm_compute. exact I. }
  rewrite Forall_forall in Hall.
  specialize (Hall (is_leap year)
                ltac:(destruct (is_leap year); rewrite !elem_of_cons; tauto)).
  rewrite Forall_forall in Hall.
  specialize (Hall (is_leap (year - 1))
                ltac:(destruct (is_leap (year - 1)); rewrite !elem_of_cons; tauto)).
  rewrite Forall_forall in Hall.
  specialize (Hall month ltac:(apply elem_of_seqZ; lia) Hskip) as [Hfeb Hdup].
  set (walk := walk_back (is_leap year) (is_leap (year - 1)) month) in *.
  split; [|split].
  - by rewrite length_map.
  - intros total Hin. apply Hfeb.
    apply list_elem_of_fmap in Hin as (i & Heq & Hi).
    apply list_elem_of_fmap. exists i. split; [|done].
    unfold month_entry in Heq. cbn [fst snd] in Heq.
    injection Heq as Hyear Hmonth _.
    destruct (walk i) as [off mon]. cbn [fst snd] in *. f_equal; lia.
  - intros Hnd. apply Hdup.
    rewrite map_map in Hnd. cbn [month_entry fst] in Hnd.
    apply (NoDup_fmap_1 (λ w : Z * Z, (year + w.1, w.2))).
    by rewrite <- list_fmap_compose.
Qed.

Lemma calculate_monthly_expenses_skips_february_witness :
  ∃ expenses,
    calculate_monthly_expenses [mkRow 1 250 (Some 739300) 1 None] 1%positive
      (ymd2ord 2025 3 15) 12
    = in_range expenses
    ∧ length expenses = 12%nat
    ∧ (∀ total, (2025, 2, total) ∉ expenses)
    ∧ ¬ NoDup (map fst expenses).
Proof.
  apply (calculate_monthly_expenses_skips_february
           [mkRow 1 250 (Some 739300) 1 None] 1%positive 2025 3 15);
    [lia | lia | vm_compute; split; discriminate | reflexivity].
Defined.

(** * The receipt validator *)

Lemma validate_items_accepts (items : list JSON) :
  validate_items items = Returned receipt_ok
  ↔ Forall (λ item,
      ∃ fields, item = JObject fields
        ∧ (json_get "split_method" fields = Some (JString "EVENLY")
           ∨ (json_get "split_method" fields = Some (JString "BY_USER")
              ∧ is_Some (json_get "split_user_id" fields)))
        ∧ is_Some (json_get "paid_by_id" fields)) items.
Proof.
  induction items as [|item rest IH]; [done|].
  rewrite Forall_cons, <- IH. clear IH. cbn [validate_items].
  destruct item as [| b | z | s | l | fields];
    try (cbn; split; [discriminate|intros [(f & [=] & _) _]]).
  - cbn [py_item py_contains mbind outcome_bind]. split.
    + destruct (is_substring "split_method" s); cbn; discriminate.
    + intros [(f & [=] & _) _].
  - cbn [py_item py_contains mbind outcome_bind]. split.
    + destruct (existsb (is_text "split_method") l); cbn; discriminate.
    + intros [(f & [=] & _) _].
  - cbn [py_item py_contains mbind outcome_bind].
    destruct (json_get "split_method" fields) as [v|] eqn:Hsm.
    2: { split; [discriminate|]. intros [(f & [= <-] & [H|[H _]] & _) _];
           rewrite Hsm in H; discriminate. }
    assert (∀ t, is_text t v = true ↔ v = JString t) as Htext.
    { intros t. destruct v; cbn; try (split; discriminate).
      rewrite String.eqb_eq. split; [by intros ->|by intros [= ->]]. }
    destruct (is_text "EVENLY" v) eqn:Eev.
    + apply Htext in Eev. subst v. cbn [is_text orb negb String.eqb].
      replace (String.eqb "EVENLY" "BY_USER") with false by reflexivity.
      cbn [mbind outcome_bind negb].
      destruct (bool_decide (is_Some (json_get "paid_by_id" fields))) eqn:Ep;
        cbn [negb].
      * apply bool_decide_eq_true in Ep. split.
        -- intros H. split; [|done]. exists fields. split; [done|].
           split; [by left|done].
        -- intros [_ H]. done.
      * apply bool_decide_eq_false in Ep. split; [discriminate|].
        intros [(f & [= <-] & _ & H) _]. done.
    + destruct (is_text "BY_USER" v) eqn:Eby; cbn [orb negb].
      2: { split; [discriminate|].
           intros [(f & [= <-] & [H|[H _]] & _) _]; rewrite Hsm in H;
             injection H as ->; done. }
      apply Htext in Eby. subst v.
      cbn [mbind outcome_bind].
      destruct (bool_decide (is_Some (json_get "split_user_id" fields))) eqn:Eu;
        cbn [negb].
      2: { apply bool_decide_eq_false in Eu. split; [discriminate|].
           intros [(f & [= <-] & [H|[_ H]] & _) _]; [|done].
           rewrite Hsm in H. discriminate. }
      apply bool_decide_eq_true in Eu.
      destruct (bool_decide (is_Some (json_get "paid_by_id" fields))) eqn:Ep;
        cbn [negb].
      * apply bool_decide_eq_true in Ep. split.
        -- intros H. split; [|done]. exists fields. split; [done|].
           split; [by right|done].
        -- intros [_ H]. done.
      * apply bool_decide_eq_false in Ep. split; [discriminate|].
        intros [(f & [= <-] & _ & H) _]. done.
Qed.

Lemma validate_items_not_texts (texts : list string) :
  texts ≠ [] →
  validate_items (map JString texts) ≠ Returned receipt_ok.
Proof.
  intros Hne H. apply validate_items_accepts in H.
  destruct texts as [|t texts]; [done|].
  apply Forall_cons in H as [(f & [=] & _) _].
Qed.

(** X29.  [validate_receipt_data] accepts exactly the receipts that have all
    nine required fields and whose [items] is a list that is not empty and
    holds objects only, each with a [split_method] of [EVENLY] or [BY_USER],
    a [split_user_id] when it is [BY_USER], and a [paid_by_id]; the values
    of [split_user_id] and [paid_by_id] are not looked at, [null] included. *)
Theorem validate_receipt_data_accepts (receipt_data : list (string * JSON)) :
  validate_receipt_data receipt_data = Returned receipt_ok
  ↔ (∀ field, field ∈ required_fields → is_Some (json_get field receipt_data))
    ∧ ∃ items,
        json_get "items" receipt_data = Some (JList items)
        ∧ items ≠ []
        ∧ Forall (λ item,
            ∃ fields, item = JObject fields
              ∧ (json_get "split_method" fields = Some (JString "EVENLY")
                 ∨ (json_get "split_method" fields = Some (JString "BY_USER")
                    ∧ is_Some (json_get "split_user_id" fields)))
              ∧ is_Some (json_get "paid_by_id" fields)) items.
Proof.
  unfold validate_receipt_data.
  destruct (List.find _ required_fields) as [field|] eqn:Hfind.
  { apply find_some in Hfind as [Hin Hmiss].
    apply negb_true_iff, bool_decide_eq_false in Hmiss.
    split; [discriminate|]. intros [Hall _]. destruct Hmiss.
    apply Hall. by apply list_elem_of_In. }
  assert (∀ field, field ∈ required_fields →
                   is_Some (json_get field receipt_data)) as Hall.
  { intros field Hin. apply list_elem_of_In in Hin.
    pose proof (find_none _ _ Hfind field Hin) as H. cbn beta in H.
    by apply negb_false_iff, bool_decide_eq_true in H. }
  destruct (Hall "items") as [items_data Hitems].
  { unfold required_fields. rewrite !elem_of_cons. tauto. }
  rewrite Hitems. cbn [default from_option id].
  destruct items_data as [| b | z | s | items | fields]; cbn [falsy py_iter].
  - split; [discriminate|]. intros [_ (items & [=] & _)].
  - destruct b; cbn [negb mbind outcome_bind]; (split; [discriminate|]);
      intros [_ (items & [=] & _)].
  - destruct z; cbn [mbind outcome_bind]; (split; [discriminate|]);
      intros [_ (items & [=] & _)].
  - destruct (String.eqb s "") eqn:Es.
    { split; [discriminate|]. intros [_ (items & [=] & _)]. }
    cbn [mbind outcome_bind]. split; [|intros [_ (items & [=] & _)]].
    intros H. exfalso. revert H.
    rewrite <- (map_map (λ c, String c EmptyString) JString).
    apply validate_items_not_texts.
    destruct s; [discriminate|]. discriminate.
  - destruct items as [|item items].
    { split; [discriminate|]. intros [_ (items & [= <-] & H & _)]. done. }
    cbn [mbind outcome_bind]. rewrite validate_items_accepts. split.
    + intros H. split; [done|]. exists (item :: items). done.
    + intros [_ (items' & [= <-] & _ & H)]. done.
  - destruct fields as [|kv fields].
    { split; [discriminate|]. intros [_ (items & [=] & _)]. }
    cbn [mbind outcome_bind]. split; [|intros [_ (items & [=] & _)]].
    intros H. exfalso. revert H.
    rewrite <- (map_map fst JString).
    apply validate_items_not_texts. discriminate.
Qed.

(** * Reordering the shopping lists *)

Lemma first_not_found_none (list_ids : list JSON) (lists_dict : ShoppingLists) :
  first_not_found list_ids lists_dict = Returned None →
  ∃ ids : list string,
    list_ids = map JString ids ∧ ∀ id, id ∈ ids → is_Some (lists_dict !! id).
Proof.
  induction list_ids as [|list_id rest IH]; intros H.
  - exists []. split; [done|]. intros id Hin. by apply elem_of_nil in Hin.
  - cbn [first_not_found] in H.
    destruct list_id as [| b | z | s | l | fields]; cbn in H; try discriminate.
    destruct (bool_decide (is_Some (lists_dict !! s))) eqn:E; cbn in H;
      [|discriminate].
    apply bool_decide_eq_true in E.
    destruct (IH H) as (ids & -> & Hall).
    exists (s :: ids). split; [done|].
    intros id Hin. apply elem_of_cons in Hin as [->|Hin]; [done|by apply Hall].
Qed.

Lemma save_positions_spec (ids : list string) (position : Z)
    (lists_dict lists : ShoppingLists) :
  (∀ id, id ∈ ids → is_Some (lists_dict !! id)) →
  (∀ id, id ∉ ids →
         save_positions (map JString ids) position lists_dict lists !! id
         = lists !! id)
  ∧ (∀ (k : nat) id,
       ids !! k = Some id → (∀ j, (k < j)%nat → ids !! j ≠ Some id) →
       ∃ group old,
         lists_dict !! id = Some (group, old)
         ∧ save_positions (map JString ids) position lists_dict lists !! id
           = Some (group, position + Z.of_nat k)).
Proof.
  revert position lists. induction ids as [|s ids IH]; intros position lists Hall.
  - split; [done|]. intros k id Hk. by rewrite lookup_nil in Hk.
  - cbn [map save_positions].
    destruct (Hall s ltac:(left)) as [[group old] Hs]. rewrite Hs.
    destruct (IH (position + 1) (<[s := (group, position)]> lists)
                ltac:(intros; apply Hall; by right)) as [IH1 IH2].
    split.
    + intros id Hid. apply not_elem_of_cons in Hid as [Hne Hid].
      rewrite IH1 by done. by rewrite lookup_insert_ne.
    + intros [|k] id Hk Hlast.
      * cbn in Hk. injection Hk as ->.
        exists group, old. split; [done|].
        rewrite IH1.
        -- rewrite lookup_insert_eq. do 2 f_equal. lia.
        -- intros Hin. apply list_elem_of_lookup in Hin as [j Hj].
           apply (Hlast (S j)); [lia|done].
      * cbn in Hk.
        destruct (IH2 k id Hk) as (g & o & Hd & Hr).
        { intros j Hj. apply (Hlast (S j)). lia. }
        exists g, o. split; [done|]. rewrite Hr. do 2 f_equal. lia.
Qed.

(** X30.  Reordering is all or nothing, and a successful reordering numbers
    the named lists from 0 in the order given: unless the answer is the 200,
    no position changes; with the 200 every id named is a list of the
    group, a list that is not named keeps its position (so positions can
    coincide), a named list gets the index of its last mention, and no list
    changes group. *)
Theorem reorder_all_or_nothing (groups : list GroupId) (is_member : bool)
    (lists lists' : ShoppingLists) (data : list (string * JSON))
    (group_id : GroupId) (response : ReorderResponse) :
  ShoppingListReorderView_post groups is_member lists data group_id
  = Returned (response, lists') →
  match response with
  | reorder_200 _ =>
      ∃ list_ids : list string,
        py_iter (default (JList []) (json_get "list_ids" data))
        = Returned (map JString list_ids)
        ∧ list_ids ≠ []
        ∧ (∀ id, id ∈ list_ids → ∃ position, lists !! id = Some (group_id, position))
        ∧ (∀ id, id ∉ list_ids → lists' !! id = lists !! id)
        ∧ (∀ (k : nat) id,
             list_ids !! k = Some id →
             (∀ j, (k < j)%nat → list_ids !! j ≠ Some id) →
             lists' !! id = Some (group_id, Z.of_nat k))
  | _ => lists' = lists
  end.
Proof.
  unfold ShoppingListReorderView_post.
  destruct (bool_decide (group_id ∈ groups)); cbn [negb];
    [|by intros [= <- <-]].
  destruct is_member; cbn [negb]; [|by intros [= <- <-]].
  set (list_ids := default (JList []) (json_get "list_ids" data)).
  destruct (falsy list_ids) eqn:Hfalsy; [by intros [= <- <-]|].
  destruct (py_iter list_ids) as [ids|e] eqn:Hiter; cbn [mbind outcome_bind];
    [|discriminate].
  set (lists_dict := filter (λ kv, kv.2.1 = group_id) lists).
  destruct (first_not_found ids lists_dict) as [[missing|]|e] eqn:Hfirst;
    cbn [mbind outcome_bind]; [by intros [= <- <-]| |discriminate].
  intros [= <- <-].
  destruct (first_not_found_none ids lists_dict Hfirst) as (strs & -> & Hall).
  exists strs. split; [done|]. split.
  { intros ->. clear -Hfalsy Hiter. cbn [map] in Hiter.
    destruct list_ids as [| b | z | s | l | fields]; cbn in Hfalsy, Hiter;
      try discriminate.
    - destruct s; [discriminate|]. cbn in Hiter. discriminate.
    - destruct l; [discriminate|]. injection Hiter as Hiter. discriminate.
    - destruct fields; [discriminate|]. discriminate. }
  assert (∀ id group old, lists_dict !! id = Some (group, old) →
                          lists !! id = Some (group_id, old)) as Hdict.
  { intros id group old H. subst lists_dict.
    apply map_lookup_filter_Some in H as [H Hg]. cbn in Hg. by subst group. }
  destruct (save_positions_spec strs 0 lists_dict lists Hall) as [Hkeep Hset].
  split; [|split; [done|]].
  - intros id Hin. destruct (Hall id Hin) as [[group old] H].
    exists old. by apply (Hdict id group).
  - intros k id Hk Hlast.
    destruct (Hset k id Hk Hlast) as (group & old & Hd & ->).
    pose proof (Hdict id group old Hd) as Hl.
    subst lists_dict. apply map_lookup_filter_Some in Hd as [_ Hg].
    cbn in Hg. subst group. do 2 f_equal.
Qed.

Lemma reorder_all_or_nothing_witness :
  ∃ list_ids : list string,
    py_iter (default (JList [])
               (json_get "list_ids"
                  [("list_ids", JList [JString "b"; JString "a"])]))
    = Returned (map JString list_ids)
    ∧ list_ids ≠ []
    ∧ (∀ (k : nat) id,
         list_ids !! k = Some id →
         (∀ j, (k < j)%nat → list_ids !! j ≠ Some id) →
         save_positions [JString "b"; JString "a"] 0
           (filter (λ kv, kv.2.1 = 1%positive)
                   ({[ "a" := (1%positive, 0); "b" := (1%positive, 0) ]}
                    : ShoppingLists))
           {[ "a" := (1%positive, 0); "b" := (1%positive, 0) ]} !! id
         = Some (1%positive, Z.of_nat k)).
Proof.
  destruct (reorder_all_or_nothing [1%positive] true
              {[ "a" := (1%positive, 0); "b" := (1%positive, 0) ]}
              (save_positions [JString "b"; JString "a"] 0
                 (filter (λ kv, kv.2.1 = 1%positive)
                         ({[ "a" := (1%positive, 0); "b" := (1%positive, 0) ]}
                          : ShoppingLists))
                 {[ "a" := (1%positive, 0); "b" := (1%positive, 0) ]})
              [("list_ids", JList [JString "b"; JString "a"])] 1%positive
              (reorder_200 "Shopping lists reordered successfully"))
    as (list_ids & H1 & H2 & _ & _ & H5).
  - vm_compute. reflexivity.
  - exists list_ids. split; [exact H1|]. split; [exact H2|exact H5].
Defined.
